(** * CareerFit: the matching and enrichment pipeline of [ats_logic.py]

    A shallow embedding of [normalize_skill], [match_skills], [_safe_request]
    and [fetch_courses_for_skills], and the properties of them that the
    design document states.

    Conventions of the embedding.
    - A Python [str] is a [string]: a sequence of code points below 256
      (the Latin-1 range of Unicode), one [ascii] per code point.
    - A Python [set] of strings is a [gset string]; a [dict] that is only
      written with [d[k] = v] is an association list in insertion order.
    - A Python [float] is a binary64 [float] of the kernel; [int / int] and
      [round(x, 1)] follow CPython's [long_true_divide] and [double_round].
    - Exceptions are a result type; [try: ... except: pass] turns every
      outcome of its body into a normal one and keeps the state reached. *)

From Stdlib Require Import ZArith Strings.Ascii Strings.String.
From Stdlib Require Import Floats.PrimFloat Floats.SpecFloat Floats.FloatOps.
From Stdlib Require Import Numbers.Cyclic.Int63.Uint63.
From stdpp Require Import gmap strings list sorting.

Set Warnings "-clear-no-such-hyp,-notation-for-abbreviation,-register-all,-inconsistent-scopes".

(** ** Characters and strings *)

Module Char.

(** [Py_UNICODE_ISSPACE] on the code points below 256: it is the test behind
    [str.strip()] with no argument, [str.isspace] and the class [\s] of a
    [str] pattern. *)
Definition isspace (c : ascii) : bool :=
  let n := N_of_ascii c in
  ((9 <=? n) && (n <=? 13) || (28 <=? n) && (n <=? 31)
   || (n =? 32) || (n =? 133) || (n =? 160))%N.

(** The upper-case letters below 256: [A]-[Z] and [U+00C0]-[U+00DE] without
    the multiplication sign [U+00D7]. *)
Definition isupper (c : ascii) : bool :=
  let n := N_of_ascii c in
  ((65 <=? n) && (n <=? 90)
   || (192 <=? n) && (n <=? 222) && negb (n =? 215))%N.

(** Each of them has its lower-case letter 32 code points above. *)
Definition lower (c : ascii) : ascii :=
  if isupper c then ascii_of_N (N_of_ascii c + 32) else c.

End Char.

Module Str.

(** [s.lower()] *)
Fixpoint lower (s : string) : string :=
  match s with
  | EmptyString => EmptyString
  | String c r => String (Char.lower c) (lower r)
  end.

Fixpoint lstrip (s : string) : string :=
  match s with
  | EmptyString => EmptyString
  | String c r => if Char.isspace c then lstrip r else s
  end.

Fixpoint rstrip (s : string) : string :=
  match s with
  | EmptyString => EmptyString
  | String c r =>
      match rstrip r with
      | EmptyString => if Char.isspace c then EmptyString else String c EmptyString
      | r' => String c r'
      end
  end.

(** [s.strip()]: white space is removed at both ends. *)
Definition strip (s : string) : string := rstrip (lstrip s).

(** [re.sub(r'\s+', ' ', s)]: the scan goes from left to right and every
    maximal run of white space is one match, replaced by one space.
    [in_run] says that the character before belongs to the current match. *)
Fixpoint sub_spaces (in_run : bool) (s : string) : string :=
  match s with
  | EmptyString => EmptyString
  | String c r =>
      if Char.isspace c
      then if in_run then sub_spaces true r else String " " (sub_spaces true r)
      else String c (sub_spaces false r)
  end.

Definition re_sub_spaces (s : string) : string := sub_spaces false s.

(** [needle in s] and [s.startswith(prefix)] *)
Fixpoint startswith (s prefix : string) : bool :=
  match prefix, s with
  | EmptyString, _ => true
  | String p prefix', String c s' =>
      if decide (p = c) then startswith s' prefix' else false
  | String _ _, EmptyString => false
  end.

Fixpoint contains (s needle : string) : bool :=
  startswith s needle
  || match s with
     | EmptyString => false
     | String _ r => contains r needle
     end.

(** [s.replace(old, new)] for a one-character [old] *)
Fixpoint replace_char (old : ascii) (new : string) (s : string) : string :=
  match s with
  | EmptyString => EmptyString
  | String c r =>
      if decide (c = old) then new +:+ replace_char old new r
      else String c (replace_char old new r)
  end.

(** The words of a string, as [s.split()] gives them: the maximal runs of
    characters that are not white space. [cur] is the word being read. *)
Fixpoint split_go (cur : string) (s : string) : list string :=
  match s with
  | EmptyString => if decide (cur = EmptyString) then [] else [cur]
  | String c r =>
      if Char.isspace c
      then if decide (cur = EmptyString) then split_go EmptyString r
           else cur :: split_go EmptyString r
      else split_go (cur +:+ String c EmptyString) r
  end.

Definition split (s : string) : list string := split_go EmptyString s.

(** [sep.join(ws)] *)
Definition join (sep : string) (ws : list string) : string :=
  String.concat sep ws.

Definition all (p : ascii → bool) (s : string) : bool :=
  forallb p (list_ascii_of_string s).

End Str.

(** ** The normalizer *)

(** [[
def normalize_skill(s: str) -> str:
    return re.sub(r'\s+', ' ', s.strip().lower())
]] *)
Definition normalize_skill (s : string) : string :=
  Str.re_sub_spaces (Str.lower (Str.strip s)).

(** ** Python values: exceptions and numbers *)

Inductive exn : Set :=
  | ZeroDivisionError
  | RequestException
  | ParserError
  | ValueError.

(** The outcome of an expression that may raise. *)
Inductive result (A : Type) : Type :=
  | Ok (a : A)
  | Raise (e : exn).
Arguments Ok {A} a.
Arguments Raise {A} e.

#[global] Instance result_ret : MRet result := @Ok.
#[global] Instance result_bind : MBind result :=
  λ A B f m, match m with Ok a => f a | Raise e => Raise e end.

(** [percent] is the [int] 0 on one branch of [match_skills] and a [float] on
    the other. *)
Inductive number : Set :=
  | PyInt (z : Z)
  | PyFloat (x : float).

Definition float_of_nat (n : nat) : float :=
  of_uint63 (Uint63.of_Z (Z.of_nat n)).

(** The quotient of two [int]s that are lengths, the divisor not zero
    ([long_true_divide]): a zero dividend gives [0.0], and two operands below
    [2^53] are converted exactly and divided as binary64 numbers. *)
Definition quotient (a b : nat) : float :=
  if decide (a = 0) then 0%float else (float_of_nat a / float_of_nat b)%float.

(** [a / b] on two [int]s that are lengths: a zero divisor raises. *)
Definition truediv (a b : nat) : result float :=
  if decide (b = 0) then Raise ZeroDivisionError else Ok (quotient a b).

(** [n / d] rounded to the nearest integer, ties to the even one
    ([0 <= n], [0 < d]). *)
Definition div_half_even (n d : Z) : Z :=
  let q := (n / d)%Z in
  match (2 * (n mod d) ?= d)%Z with
  | Lt => q
  | Gt => (q + 1)%Z
  | Eq => if Z.even q then q else (q + 1)%Z
  end.

(** The binary64 number nearest to [n / 10] with the given sign: what
    [strtod] gives for the decimal string of [n] tenths. *)
Definition tenths (sign : bool) (n : Z) : float :=
  match n with
  | Zpos p => SF2Prim (SFdiv prec emax (S754_finite sign p 0) (S754_finite false 10 0))
  | _ => SF2Prim (S754_zero sign)
  end.

(** [round(x, 1)] on a [float] ([double_round] with one digit): the exact
    value of [x] is rounded half-even to one decimal place, and the decimal
    obtained is converted back. Zeros, infinities, NaN and the numbers with
    no fractional bit round to themselves. *)
Definition round1 (x : float) : float :=
  match Prim2SF x with
  | S754_finite sign m e =>
      if (0 <=? e)%Z then x
      else tenths sign (div_half_even (Z.pos m * 10) (2 ^ (- e)))
  | _ => x
  end.

(** [sorted(l)] on a list of [str]: the order is the one of the code points,
    and two strings that compare equal are the same string, so that the
    result does not depend on the algorithm (a stable merge sort in CPython,
    a merge sort here). *)
Definition sorted (l : list string) : list string := merge_sort String.le l.

(** ** The matcher *)

Record MatchResult : Type := {
  score_percentage : number;
  matched_skills : list string;
  missing_skills : list string;
  total_skills_count : nat;
  matched_count : nat
}.

(** [[
def match_skills(resume_skills, jd_skills):
    res_norm = {normalize_skill(s) for s in resume_skills}
    jd_norm = {normalize_skill(s) for s in jd_skills}
    res_norm.discard('null')
    jd_norm.discard('null')
    matched_norm = jd_norm & res_norm
    missing_norm = jd_norm - res_norm
    matched_original = [skill for skill in jd_skills if normalize_skill(skill) in matched_norm]
    missing_original = [skill for skill in jd_skills if normalize_skill(skill) in missing_norm]
    total = len(jd_norm)
    match_count = len(matched_norm)
    percent = round((match_count / total) * 100, 1) if total > 0 else 0
    return {...}
]] *)
Definition match_skills (resume_skills jd_skills : list string) : result MatchResult :=
  let res_norm : gset string := list_to_set (normalize_skill <$> resume_skills) in
  let jd_norm : gset string := list_to_set (normalize_skill <$> jd_skills) in
  let res_norm := res_norm ∖ {["null"]} in
  let jd_norm := jd_norm ∖ {["null"]} in
  let matched_norm := jd_norm ∩ res_norm in
  let missing_norm := jd_norm ∖ res_norm in
  let matched_original :=
    filter (λ skill, normalize_skill skill ∈ matched_norm) jd_skills in
  let missing_original :=
    filter (λ skill, normalize_skill skill ∈ missing_norm) jd_skills in
  let total := size jd_norm in
  let match_count := size matched_norm in
  percent ←
    (if decide (0 < total)
     then q ← truediv match_count total;
          mret (PyFloat (round1 (q * 100)))
     else mret (PyInt 0));
  mret {| score_percentage := percent;
          matched_skills := sorted matched_original;
          missing_skills := sorted missing_original;
          total_skills_count := total;
          matched_count := match_count |}.

(** ** The recommendation fetcher *)

Definition USER_AGENTS : list string :=
  [ "Mozilla/5.0 (Windows NT 10.0; Win64; x64)";
    "Mozilla/5.0 (Macintosh; Intel Mac OS X 10_15_7)" ].

(** An outbound [requests.get(url, headers={"User-Agent": ...}, timeout=5)]. *)
Record Request : Type := { url : string; user_agent : string }.

(** What the program reads of a [requests.Response]. *)
Record Response : Type := { status_code : Z; text : string }.

(** What the program reads of an anchor that [soup.select] found:
    [tag.get_text(strip=True)] and [tag.get] of ["href"], the empty string
    when the attribute is absent. *)
Record Tag : Type := { get_text : string; href : string }.

(** A recommendation: the [dict] with the keys ["title"] and ["link"]. *)
Record Course : Type := { title : string; link : string }.

(** The variables of [fetch_courses_for_skills], and the requests sent so far. *)
Record State : Type := {
  requests : list Request;
  skill_recs : list Course;
  recommendations : list (string * list Course)
}.

(** [bool(resp)] is [resp.ok]: no client or server error status. *)
Definition Response_bool (resp : Response) : bool :=
  negb ((400 <=? status_code resp)%Z && (status_code resp <? 600)%Z).

(** [d[k] = v] on a [dict]: the value of a key that is present is replaced in
    place, a new key goes last. *)
Fixpoint dict_setitem {V : Type} (d : list (string * V)) (k : string) (v : V)
  : list (string * V) :=
  match d with
  | [] => [(k, v)]
  | (k', v') :: d' =>
      if decide (k' = k) then (k, v) :: d' else (k', v') :: dict_setitem d' k v
  end.

Fixpoint dict_get {V : Type} (d : list (string * V)) (k : string) : option V :=
  match d with
  | [] => None
  | (k', v') :: d' => if decide (k' = k) then Some v' else dict_get d' k
  end.

Definition dict_keys {V : Type} (d : list (string * V)) : list string := d.*1.

(** Statements that read and write the state and may raise. A statement that
    raises leaves the state as it was when the exception occurred. *)
Definition M (A : Type) : Type := State → result A * State.

#[global] Instance M_ret : MRet M := λ A a st, (Ok a, st).
#[global] Instance M_bind : MBind M :=
  λ A B f m st,
    match m st with
    | (Ok a, st') => f a st'
    | (Raise e, st') => (Raise e, st')
    end.

Definition lift {A : Type} (r : result A) : M A := λ st, (r, st).

Definition gets {A : Type} (f : State → A) : M A := λ st, (Ok (f st), st).

Definition modify (f : State → State) : M unit := λ st, (Ok tt, f st).

(** [try: body / except: handler] with a bare [except]. *)
Definition try_except {A : Type} (body handler : M A) : M A :=
  λ st,
    match body st with
    | (Ok a, st') => (Ok a, st')
    | (Raise _, st') => handler st'
    end.

(** [for x in l: body(x)] *)
Fixpoint for_each {A : Type} (l : list A) (body : A → M unit) : M unit :=
  match l with
  | [] => mret tt
  | x :: l' => _ ← body x; for_each l' body
  end.

Definition exec {A : Type} (m : M A) (st : State) : State := (m st).2.
Definition outcome {A : Type} (m : M A) (st : State) : result A := (m st).1.

Definition set_skill_recs (l : list Course) : M unit :=
  modify (λ st, {| requests := requests st; skill_recs := l;
                   recommendations := recommendations st |}).

(** [skill_recs.append(c)] *)
Definition skill_recs_append (c : Course) : M unit :=
  modify (λ st, {| requests := requests st; skill_recs := skill_recs st ++ [c];
                   recommendations := recommendations st |}).

(** [recommendations[skill] = skill_recs] *)
Definition recommendations_setitem (skill : string) : M unit :=
  modify (λ st, {| requests := requests st; skill_recs := skill_recs st;
                   recommendations :=
                     dict_setitem (recommendations st) skill (skill_recs st) |}).

(** [time.sleep(seconds)]: time is not part of the state. *)
Definition sleep (seconds : nat) : M unit := mret tt.

Definition ddg_url (skill : string) : string :=
  Str.replace_char " " "+"
    ("https://duckduckgo.com/html/?q=" +:+ ("top online courses for " +:+ skill)).

Definition coursera_url (skill : string) : string :=
  "https://www.coursera.org/search?query=" +:+ Str.replace_char " " "%20" skill.

(** The selector [a[data-click-key="search.search.click.search_card"]]. *)
Definition coursera_selector : string :=
  "a[data-click-key=" +:+ String "034" "search.search.click.search_card"
  +:+ String "034" "]".

Section Fetcher.

(** The world outside the program. Each of the four may depend on what was
    requested before, and the last three may raise.
    - [randbelow history n]: the index that [random.choice] draws in a
      sequence of length [n];
    - [requests_get history req]: the answer of the network to [req];
    - [soup_select html css]: [BeautifulSoup(html, "html.parser").select(css)];
    - [uddg link]: the first value of the parameter ["uddg"] in
      [urllib.parse.parse_qs(urllib.parse.urlparse(link).query)], the empty
      string when there is none; [urlparse] raises [ValueError] on a
      malformed link, such as one with an unbalanced bracket in its host. *)
Variable randbelow : list Request → nat → nat.
Variable requests_get : list Request → Request → result Response.
Variable soup_select : string → string → result (list Tag).
Variable uddg : string → result string.

(** [random.choice(seq)] on a sequence of strings that is not empty *)
Definition random_choice (seq : list string) : M string :=
  gets (λ st, nth (randbelow (requests st) (length seq) `mod` length seq) seq EmptyString).

(** [requests.get(url, headers=headers, timeout=5)] *)
Definition http_get (url : string) (headers : string) : M Response :=
  λ st,
    let req := {| url := url; user_agent := headers |} in
    (requests_get (requests st) req,
     {| requests := requests st ++ [req]; skill_recs := skill_recs st;
        recommendations := recommendations st |}).

(** [[
def _safe_request(url):
  headers = {"User-Agent": random.choice(USER_AGENTS)}
  try:
      return requests.get(url, headers=headers, timeout=5)
  except:
      return None
]] *)
Definition _safe_request (url : string) : M (option Response) :=
  headers ← random_choice USER_AGENTS;
  try_except (resp ← http_get url headers; mret (Some resp)) (mret None).

(** [if resp and resp.status_code == 200] *)
Definition usable (resp : option Response) : option Response :=
  match resp with
  | Some r => if Response_bool r && (status_code r =? 200)%Z then Some r else None
  | None => None
  end.

(** The body of the loop over the first two anchors of the search page. *)
Definition ddg_tag (tag : Tag) : M unit :=
  let title := get_text tag in
  let link := href tag in
  link ← (if Str.contains link "uddg=" then lift (uddg link) else mret link);
  if Str.startswith link "http"
  then skill_recs_append {| title := title; link := link |}
  else mret tt.

(** The body of the first [try], the search-engine provider. *)
Definition ddg_body (skill : string) : M unit :=
  let url := ddg_url skill in
  resp ← _safe_request url;
  match usable resp with
  | Some resp =>
      tags ← lift (soup_select (text resp) "a.result__a");
      for_each (take 2 tags) ddg_tag
  | None => mret tt
  end.

Definition coursera_tag (a : Tag) : M unit :=
  let title := get_text a in
  let link := "https://www.coursera.org" +:+ href a in
  skill_recs_append {| title := title; link := link |}.

(** The body of the second [try], the course-catalog provider. *)
Definition coursera_body (skill : string) : M unit :=
  let url := coursera_url skill in
  resp ← _safe_request url;
  match usable resp with
  | Some resp =>
      tags ← lift (soup_select (text resp) coursera_selector);
      for_each (take 1 tags) coursera_tag
  | None => mret tt
  end.

(** The body of [for skill in skills_to_search]. *)
Definition fetch_skill (skill : string) : M unit :=
  _ ← set_skill_recs [];
  _ ← try_except (ddg_body skill) (mret tt);
  n ← gets (λ st, length (skill_recs st));
  _ ← (if decide (n < 2)
       then try_except (coursera_body skill) (mret tt)
       else mret tt);
  _ ← recommendations_setitem skill;
  sleep 1.

(** [[
def fetch_courses_for_skills(skills):
  recommendations = {}
  skills_to_search = skills[:3]
  for skill in skills_to_search:
      ...
  return recommendations
]] *)
Definition fetch_courses_for_skills (skills : list string)
  : M (list (string * list Course)) :=
  _ ← modify (λ st, {| requests := requests st; skill_recs := skill_recs st;
                       recommendations := [] |});
  let skills_to_search := take 3 skills in
  _ ← for_each skills_to_search fetch_skill;
  gets recommendations.

(** The state after the first [try] of an iteration that starts in [st],
    and the state after the second [try] when it starts in [st1]. *)
Definition after_primary (skill : string) (st : State) : State :=
  exec (try_except (ddg_body skill) (mret tt)) (exec (set_skill_recs []) st).

Definition after_fallback (skill : string) (st1 : State) : State :=
  exec (try_except (coursera_body skill) (mret tt)) st1.

End Fetcher.

(** [st'] is [st] after the requests [reqs] and with [extra] appended to
    [skill_recs]. *)
Definition extends (st st' : State) (reqs : list Request) (extra : list Course)
  : Prop :=
  requests st' = requests st ++ reqs
  ∧ skill_recs st' = skill_recs st ++ extra
  ∧ recommendations st' = recommendations st.

(** The keys of a [dict] that starts with the keys [ks] and is assigned at
    the keys [l], one after the other. *)
Definition add_key (ks : list string) (k : string) : list string :=
  if decide (k ∈ ks) then ks else ks ++ [k].

Definition keys_after (ks l : list string) : list string := foldl add_key ks l.



(** The state in which [fetch_courses_for_skills] starts when nothing was
    requested before. *)
Definition initial : State :=
  {| requests := []; skill_recs := []; recommendations := [] |}.

(** A world for the examples: the search engine answers with a page of two
    anchors, the link of the second one is malformed and [urlparse] raises
    on it; the course catalog is not reachable. *)
Module Example.

Definition randbelow (history : list Request) (n : nat) : nat := 0.

Definition requests_get (history : list Request) (req : Request)
  : result Response :=
  if Str.startswith (url req) "https://duckduckgo.com/"
  then Ok {| status_code := 200; text := "<html>search</html>" |}
  else Raise RequestException.

Definition soup_select (html css : string) : result (list Tag) :=
  Ok [ {| get_text := "Go by Example"; href := "https://gobyexample.com" |};
       {| get_text := "A Tour of Go"; href := "//[?uddg=https://go.dev/tour" |} ].

Definition uddg (link : string) : result string :=
  if decide (link = "//[?uddg=https://go.dev/tour") then Raise ValueError
  else Ok EmptyString.

(** A second world: both providers answer, the search engine with two
    proper links. *)
Definition requests_get_ok (history : list Request) (req : Request)
  : result Response :=
  Ok {| status_code := 200; text := url req |}.

Definition soup_select_ok (html css : string) : result (list Tag) :=
  if decide (css = "a.result__a")
  then Ok [ {| get_text := "Go by Example"; href := "https://gobyexample.com" |};
            {| get_text := "A Tour of Go"; href := "https://go.dev/tour" |};
            {| get_text := "Effective Go"; href := "https://go.dev/doc" |} ]
  else Ok [ {| get_text := "Programming with Go"; href := "/learn/golang" |};
            {| get_text := "Go Basics"; href := "/learn/go-basics" |} ].

End Example.

(** ** The sets of the design document *)

(** The normalized, null-filtered set of a list of skills: the normalized
    forms of its entries, without the sentinel. *)
Definition skillSet (skills : list string) : gset string :=
  filter (λ x, x ≠ "null") (list_to_set (normalize_skill <$> skills)).

Definition resumeSet (resume_skills : list string) : gset string :=
  skillSet resume_skills.
Definition requiredSet (jd_skills : list string) : gset string :=
  skillSet jd_skills.
Definition matchedSet (resume_skills jd_skills : list string) : gset string :=
  requiredSet jd_skills ∩ resumeSet resume_skills.
Definition missingSet (resume_skills jd_skills : list string) : gset string :=
  requiredSet jd_skills ∖ resumeSet resume_skills.

(** The score of the design document:
    [round(|matchedSet| / |requiredSet| * 100, 1)] if [|requiredSet| > 0],
    else [0]. *)
Definition score_formula (matched required : nat) : number :=
  if decide (0 < required)
  then PyFloat (round1 (quotient matched required * 100))
  else PyInt 0.

(** A word: a string that is not empty and holds no white space. *)
Definition word (w : string) : Prop :=
  w ≠ EmptyString ∧ Str.all (λ c, negb (Char.isspace c)) w = true.

(** ** The caller: steps 4 and 5 of [analyze] in [app.py] *)

Section Pipeline.

Variable randbelow : list Request → nat → nat.
Variable requests_get : list Request → Request → result Response.
Variable soup_select : string → string → result (list Tag).
Variable uddg : string → result string.

(** [[
match_results = match_skills(resume_data.get('skills', []), jd_data.get('skills_required', []))
recommendations = {}
if match_results['missing_skills']:
    recommendations = fetch_courses_for_skills(match_results['missing_skills'])
]] *)
Definition analyze_skills (resume_skills jd_skills : list string)
  : M (MatchResult * list (string * list Course)) :=
  match_results ← lift (match_skills resume_skills jd_skills);
  match missing_skills match_results with
  | [] => mret (match_results, [])
  | _ :: _ =>
      recommendations ←
        fetch_courses_for_skills randbelow requests_get soup_select uddg
          (missing_skills match_results);
      mret (match_results, recommendations)
  end.

End Pipeline.

(** ** The answers of the extraction service *)

(** A value that [json.loads] returns. *)
Inductive json : Type :=
  | JNull
  | JBool (b : bool)
  | JInt (z : Z)
  | JFloat (x : float)
  | JStr (s : string)
  | JList (l : list json)
  | JDict (d : list (string * json)).

(** [bool(v)]: [None], [False], zero, and the empty string, list and dict
    are false. *)
Definition truthy (v : json) : bool :=
  match v with
  | JNull => false
  | JBool b => b
  | JInt z => negb (z =? 0)%Z
  | JFloat x => negb (x =? 0)%float
  | JStr s => negb (bool_decide (s = EmptyString))
  | JList l => negb (bool_decide (l = []))
  | JDict d => negb (bool_decide (d = []))
  end.

(** [isinstance(v, list)] *)
Definition is_list (v : json) : bool :=
  match v with JList _ => true | _ => false end.

(** [isinstance(v, bool)] *)
Definition is_bool (v : json) : bool :=
  match v with JBool _ => true | _ => false end.

(** [data.get(field)]: [None] for a key that is absent. *)
Definition json_get (data : list (string * json)) (field : string) : json :=
  default JNull (dict_get data field).

(** [[
def _to_bool(v):
    if isinstance(v, bool): return v
    return str(v).lower() in ('true', 'yes', '1')
]]
    [str] of an [int] is its decimal notation, which is ["1"] for 1 only;
    [str(None)] is ["None"]; [str] of a [float] has a point, an exponent or
    the letters of [inf] and [nan]; [str] of a list or of a dict starts with
    a bracket or a brace. *)
Definition _to_bool (v : json) : bool :=
  match v with
  | JBool b => b
  | JStr s => bool_decide (Str.lower s ∈ ["true"; "yes"; "1"])
  | JInt z => bool_decide (z = 1%Z)
  | JNull | JFloat _ | JList _ | JDict _ => false
  end.

(** One turn of the loop over the list fields:
    [[
if not isinstance(data.get(field), list):
    data[field] = [data[field]] if data.get(field) else default
]] *)
Definition coerce_list_field (default : list json) (data : list (string * json))
    (field : string) : list (string * json) :=
  if is_list (json_get data field) then data
  else dict_setitem data field
         (JList (if truthy (json_get data field) then [json_get data field]
                 else default)).

(** [data[field] = _to_bool(data.get(field))] *)
Definition coerce_bool_field (data : list (string * json)) (field : string)
  : list (string * json) :=
  dict_setitem data field (JBool (_to_bool (json_get data field))).

Definition resume_list_fields : list string :=
  ["skills"; "certificates"; "tools_and_tech"].

Definition resume_bool_fields : list string :=
  ["document_parsability"; "document_structure";
   "avoidance_of_non_parseable_elements"].

Definition jd_list_fields : list string :=
  ["skills_required"; "certificates_required"; "tools_technologies"].

(** The [try] block that ends [parse_resume], after [json.loads]: [None] is
    the [RuntimeError] that the handler raises for every exception, here the
    [AttributeError] of [data.get] on a value that is not a dict. *)
Definition parse_resume_response (file_format : string) (data : json) : option json :=
  match data with
  | JDict d =>
      let d := foldl (coerce_list_field []) d resume_list_fields in
      let d := foldl coerce_bool_field d resume_bool_fields in
      Some (JDict (dict_setitem d "file_format" (JStr file_format)))
  | _ => None
  end.

(** The [try] block that ends [parse_jd], after [json.loads]:
    [[
if isinstance(data, list): data = data[0]
for field in ['skills_required', 'certificates_required', 'tools_technologies']:
    if not isinstance(data.get(field), list):
       data[field] = [data[field]] if data.get(field) else ["Null"]
return data
]]
    [None] is the [RuntimeError] of the handler: [data[0]] on an empty list,
    [data.get] on a value that is not a dict. *)
Definition parse_jd_response (data : json) : option json :=
  data ← match data with
         | JList [] => None
         | JList (first :: _) => Some first
         | _ => Some data
         end;
  match data with
  | JDict d => Some (JDict (foldl (coerce_list_field [JStr "Null"]) d jd_list_fields))
  | _ => None
  end.

(** The strings of a list of skills as [match_skills] reads them: an item
    that is not a [str] has no [strip] ([None] is the [AttributeError]). *)
Definition skill_strings (items : list json) : option (list string) :=
  mapM (λ v, match v with JStr s => Some s | _ => None end) items.

(** The value of a list field after its turn of the loop, from its value
    [v] before ([None] when the key was absent). *)
Definition coerced_list (default : list json) (v : json) : json :=
  if is_list v then v else JList (if truthy v then [v] else default).

(** * Properties *)

(** ** Characters *)

Lemma isspace_lower (c : ascii) : Char.isspace (Char.lower c) = Char.isspace c.
Proof. destruct c as [[] [] [] [] [] [] [] []]; reflexivity. Qed.

Lemma lower_lower (c : ascii) : Char.lower (Char.lower c) = Char.lower c.
Proof. destruct c as [[] [] [] [] [] [] [] []]; reflexivity. Qed.

Lemma isupper_lower (c : ascii) : Char.isupper (Char.lower c) = false.
Proof. destruct c as [[] [] [] [] [] [] [] []]; reflexivity. Qed.

(** ** Strings *)

Lemma str_app_cons (c : ascii) (s t : string) : String c s +:+ t = String c (s +:+ t).
Proof. reflexivity. Qed.

Lemma str_app_nil_l (t : string) : EmptyString +:+ t = t.
Proof. reflexivity. Qed.

Lemma str_app_nil_r (s : string) : s +:+ EmptyString = s.
Proof. induction s as [|c s IH]; [done|]. by rewrite str_app_cons, IH. Qed.

Lemma str_app_assoc (s t u : string) : (s +:+ t) +:+ u = s +:+ (t +:+ u).
Proof. induction s as [|c s IH]; [done|]. by rewrite !str_app_cons, IH. Qed.

Lemma str_app_eq_nil (s t : string) : s +:+ t = EmptyString → s = EmptyString ∧ t = EmptyString.
Proof. destruct s; [done|]. rewrite str_app_cons. done. Qed.

Lemma str_lower_app (s t : string) : Str.lower (s +:+ t) = Str.lower s +:+ Str.lower t.
Proof. induction s as [|c s IH]; [done|]. rewrite !str_app_cons. simpl. by rewrite IH, str_app_cons. Qed.

Lemma str_lower_eq_nil (s : string) : Str.lower s = EmptyString ↔ s = EmptyString.
Proof. by destruct s. Qed.

Lemma str_lower_lower (s : string) : Str.lower (Str.lower s) = Str.lower s.
Proof. induction s as [|c s IH]; [done|]. simpl. by rewrite lower_lower, IH. Qed.

(** *** Stripping *)

Lemma lstrip_idemp (s : string) : Str.lstrip (Str.lstrip s) = Str.lstrip s.
Proof.
  induction s as [|c s IH]; [done|]. simpl.
  destruct (Char.isspace c) eqn:Hc; [done|]. simpl. by rewrite Hc.
Qed.

Lemma rstrip_cons (c : ascii) (s : string) :
  Str.rstrip (String c s) =
    if decide (Str.rstrip s = EmptyString)
    then if Char.isspace c then EmptyString else String c EmptyString
    else String c (Str.rstrip s).
Proof. simpl. by destruct (Str.rstrip s). Qed.

Lemma rstrip_idemp (s : string) : Str.rstrip (Str.rstrip s) = Str.rstrip s.
Proof.
  induction s as [|c s IH]; [done|]. rewrite rstrip_cons.
  case_decide as Hs.
  - destruct (Char.isspace c) eqn:Hc; [done|]. simpl. by rewrite Hc.
  - rewrite rstrip_cons, IH. by rewrite decide_False.
Qed.

Lemma lstrip_rstrip (s : string) :
  Str.lstrip (Str.rstrip s) = Str.rstrip (Str.lstrip s).
Proof.
  induction s as [|c s IH]; [done|]. rewrite rstrip_cons. simpl.
  destruct (Char.isspace c) eqn:Hc.
  - case_decide as Hs.
    + by rewrite <-IH, Hs.
    + simpl. by rewrite Hc.
  - rewrite rstrip_cons. case_decide; simpl; by rewrite Hc.
Qed.

Lemma lstrip_strip (s : string) : Str.lstrip (Str.strip s) = Str.strip s.
Proof. unfold Str.strip. by rewrite lstrip_rstrip, lstrip_idemp. Qed.

Lemma rstrip_strip (s : string) : Str.rstrip (Str.strip s) = Str.strip s.
Proof. unfold Str.strip. by rewrite rstrip_idemp. Qed.

Lemma lstrip_lower (s : string) : Str.lstrip (Str.lower s) = Str.lower (Str.lstrip s).
Proof.
  induction s as [|c s IH]; [done|]. simpl. rewrite isspace_lower.
  by destruct (Char.isspace c).
Qed.

Lemma rstrip_lower (s : string) : Str.rstrip (Str.lower s) = Str.lower (Str.rstrip s).
Proof.
  induction s as [|c s IH]; [done|].
  change (Str.lower (String c s)) with (String (Char.lower c) (Str.lower s)).
  rewrite !rstrip_cons, IH, isspace_lower.
  destruct (decide (Str.rstrip s = EmptyString)) as [Hs|Hs].
  - rewrite Hs. simpl. by destruct (Char.isspace c).
  - rewrite decide_False; [done|]. by rewrite str_lower_eq_nil.
Qed.

(** *** Words *)

Lemma split_go_lstrip (s : string) :
  Str.split_go EmptyString (Str.lstrip s) = Str.split_go EmptyString s.
Proof.
  induction s as [|c s IH]; [done|]. simpl.
  destruct (Char.isspace c) eqn:Hc; [done|]. simpl. by rewrite Hc.
Qed.

Lemma split_go_rstrip (cur s : string) :
  Str.split_go cur (Str.rstrip s) = Str.split_go cur s.
Proof.
  revert cur. induction s as [|c s IH]; intros cur; [done|].
  rewrite rstrip_cons. case_decide as Hs.
  - pose proof (IH EmptyString) as IH0. pose proof (IH (cur +:+ String c EmptyString)) as IH1.
    rewrite Hs in IH0, IH1. simpl in *.
    destruct (Char.isspace c) eqn:Hc; simpl.
    + rewrite <-IH0. by case_decide.
    + by rewrite Hc, <-IH1.
  - simpl. by rewrite !IH.
Qed.

Lemma split_strip (s : string) : Str.split (Str.strip s) = Str.split s.
Proof. unfold Str.split, Str.strip. by rewrite split_go_rstrip, split_go_lstrip. Qed.

Lemma split_go_lower (cur s : string) :
  Str.split_go (Str.lower cur) (Str.lower s) = Str.lower <$> Str.split_go cur s.
Proof.
  revert cur. induction s as [|c s IH]; intros cur; simpl.
  - destruct (decide (cur = EmptyString)) as [->|Hc]; [done|].
    rewrite decide_False; [done|]. by rewrite str_lower_eq_nil.
  - rewrite isspace_lower. destruct (Char.isspace c).
    + destruct (decide (cur = EmptyString)) as [->|Hc]; simpl.
      * apply (IH EmptyString).
      * rewrite decide_False by (by rewrite str_lower_eq_nil).
        f_equal. apply (IH EmptyString).
    + rewrite <-IH, str_lower_app. done.
Qed.

Lemma split_lower (s : string) : Str.split (Str.lower s) = Str.lower <$> Str.split s.
Proof. apply (split_go_lower EmptyString). Qed.

Lemma split_go_nil (cur s : string) :
  Str.split_go cur s = [] → cur = EmptyString ∧ Str.rstrip s = EmptyString.
Proof.
  revert cur. induction s as [|c s IH]; intros cur; simpl.
  - by case_decide.
  - destruct (Char.isspace c) eqn:Hc.
    + case_decide as Hcur; [|done]. intros [_ Hs]%IH. by rewrite Hs.
    + intros [Hcur _]%IH. by apply str_app_eq_nil in Hcur as [_ ?].
Qed.

Lemma rstrip_fix_cons (c : ascii) (s : string) :
  Str.rstrip (String c s) = String c s →
  Str.rstrip s = s ∧ (Char.isspace c = true → Str.rstrip s ≠ EmptyString).
Proof.
  rewrite rstrip_cons. case_decide as Hs.
  - destruct (Char.isspace c); [done|]. intros [= <-]. done.
  - intros [= Heq]. done.
Qed.

Lemma join_cons (sep w : string) (ws : list string) :
  ws ≠ [] → Str.join sep (w :: ws) = w +:+ (sep +:+ Str.join sep ws).
Proof. by destruct ws. Qed.

(** On a string with no white space at its end, replacing the runs of white
    space by one space is joining the words, the word being read included. *)
Lemma join_split_go (cur s : string) :
  Str.rstrip s = s →
  Str.join " " (Str.split_go cur s) =
    if decide (cur = EmptyString) then Str.sub_spaces true s
    else cur +:+ Str.sub_spaces false s.
Proof.
  revert cur. induction s as [|c s IH]; intros cur Hfix; simpl.
  - case_decide; [done|]. by rewrite str_app_nil_r.
  - apply rstrip_fix_cons in Hfix as [Hs Hc]. destruct (Char.isspace c) eqn:Ec.
    + specialize (IH EmptyString Hs). rewrite decide_True in IH by done.
      case_decide as Hcur; [done|].
      rewrite join_cons, IH; [done|].
      intros [_ Hnil]%split_go_nil. by apply Hc.
    + rewrite (IH _ Hs). rewrite decide_False.
      * case_decide as Hcur; [by subst|]. by rewrite str_app_assoc.
      * intros [_ ?]%str_app_eq_nil. done.
Qed.

Lemma sub_spaces_lstrip (s : string) :
  Str.lstrip s = s → Str.sub_spaces false s = Str.sub_spaces true s.
Proof.
  destruct s as [|c s]; [done|]. simpl.
  destruct (Char.isspace c) eqn:Hc; [|done].
  intros Hs. assert (Hlen : String.length (Str.lstrip s) ≤ String.length s).
  { clear. induction s as [|c s IH]; simpl; [done|].
    destruct (Char.isspace c); simpl; lia. }
  rewrite Hs in Hlen. simpl in Hlen. lia.
Qed.

Lemma re_sub_spaces_join (s : string) :
  Str.lstrip s = s → Str.rstrip s = s →
  Str.re_sub_spaces s = Str.join " " (Str.split s).
Proof.
  intros Hl Hr. unfold Str.re_sub_spaces, Str.split.
  by rewrite (join_split_go EmptyString s Hr), sub_spaces_lstrip.
Qed.

(** The normal form of a skill is its lower-cased words, one space apart. *)
Lemma normalize_skill_words (s : string) :
  normalize_skill s = Str.join " " (Str.lower <$> Str.split s).
Proof.
  unfold normalize_skill. rewrite re_sub_spaces_join.
  - by rewrite split_lower, split_strip.
  - by rewrite lstrip_lower, lstrip_strip.
  - by rewrite rstrip_lower, rstrip_strip.
Qed.

Lemma all_app (p : ascii → bool) (s t : string) :
  Str.all p (s +:+ t) = Str.all p s && Str.all p t.
Proof.
  unfold Str.all. induction s as [|c s IH]; [done|].
  rewrite str_app_cons. simpl. by rewrite IH, andb_assoc.
Qed.

Lemma split_go_words (cur s : string) :
  Str.all (λ c, negb (Char.isspace c)) cur = true →
  Forall word (Str.split_go cur s).
Proof.
  revert cur. induction s as [|c s IH]; intros cur Hcur; simpl.
  - case_decide; by repeat constructor.
  - destruct (Char.isspace c) eqn:Hc.
    + case_decide; [by apply IH|]. constructor; [done|by apply IH].
    + apply IH. rewrite all_app, Hcur. unfold Str.all. simpl. by rewrite Hc.
Qed.

Lemma split_words (s : string) : Forall word (Str.split s).
Proof. by apply split_go_words. Qed.

Lemma word_lower (w : string) : word w → word (Str.lower w).
Proof.
  intros [Hne Hall]. split; [by rewrite str_lower_eq_nil|].
  clear Hne. unfold Str.all in *. induction w as [|c w IH]; [done|].
  simpl in *. rewrite isspace_lower. apply andb_true_iff in Hall as [-> ?]. auto.
Qed.

Lemma split_go_word_app (cur w s : string) :
  Str.all (λ c, negb (Char.isspace c)) w = true →
  Str.split_go cur (w +:+ s) = Str.split_go (cur +:+ w) s.
Proof.
  revert cur. induction w as [|c w IH]; intros cur Hw.
  - by rewrite str_app_nil_l, str_app_nil_r.
  - unfold Str.all in Hw. simpl in Hw. apply andb_true_iff in Hw as [Hc Hw].
    rewrite str_app_cons. simpl. apply negb_true_iff in Hc. rewrite Hc.
    rewrite IH by done. by rewrite str_app_assoc.
Qed.

Lemma split_go_space (cur s : string) :
  cur ≠ EmptyString →
  Str.split_go cur (String " " s) = cur :: Str.split_go EmptyString s.
Proof. intros Hcur. simpl. by rewrite decide_False. Qed.

(** Splitting undoes joining words with one space. *)
Lemma split_join (ws : list string) :
  Forall word ws → Str.split (Str.join " " ws) = ws.
Proof.
  unfold Str.split. induction 1 as [|w ws [Hne Hw] Hws IH]; [done|].
  destruct ws as [|w' ws].
  - simpl. rewrite <-(str_app_nil_r w) at 1.
    rewrite split_go_word_app by done. simpl. by rewrite decide_False.
  - rewrite join_cons by done. rewrite split_go_word_app by done.
    rewrite str_app_nil_l, str_app_cons, str_app_nil_l.
    rewrite split_go_space by done. by rewrite IH.
Qed.

Lemma normalize_skill_idemp (s : string) :
  normalize_skill (normalize_skill s) = normalize_skill s.
Proof.
  rewrite (normalize_skill_words (normalize_skill s)), normalize_skill_words.
  rewrite split_join.
  - rewrite <-list_fmap_compose. f_equal. apply list_fmap_ext.
    intros _ w _. simpl. apply str_lower_lower.
  - apply Forall_fmap. eapply Forall_impl; [apply split_words|]. apply word_lower.
Qed.

(** C9: [normalize_skill] is a total function of its argument alone; its
    result is the list of the words of the argument (the trimmed runs between
    white space), each lower-cased, with exactly one space between two words:
    the input lower-cased, trimmed, and every internal run of white space
    collapsed to one space. Normalizing twice is normalizing once. *)
Theorem normalize_skill_idempotent (s : string) :
  normalize_skill s = Str.join " " (Str.lower <$> Str.split s)
  ∧ Forall word (Str.lower <$> Str.split s)
  ∧ normalize_skill (normalize_skill s) = normalize_skill s.
Proof.
  split; [apply normalize_skill_words|]. split; [|apply normalize_skill_idemp].
  apply Forall_fmap. eapply Forall_impl; [apply split_words|]. apply word_lower.
Qed.

(** ** The matcher *)

Lemma elem_of_skillSet (skills : list string) (x : string) :
  x ∈ skillSet skills ↔
    x ≠ "null" ∧ ∃ s, s ∈ skills ∧ normalize_skill s = x.
Proof.
  unfold skillSet. rewrite elem_of_filter, elem_of_list_to_set, list_elem_of_fmap.
  naive_solver.
Qed.

(** The set that [match_skills] builds, a comprehension followed by
    [discard('null')], is the set of the design document. *)
Lemma discard_null (skills : list string) :
  (list_to_set (normalize_skill <$> skills) : gset string) ∖ {["null"]}
  = skillSet skills.
Proof.
  apply set_eq. intros x.
  rewrite elem_of_skillSet, elem_of_difference, elem_of_list_to_set,
    list_elem_of_fmap, not_elem_of_singleton.
  naive_solver.
Qed.

Lemma elem_of_matchedSet (rs js : list string) (x : string) :
  x ∈ matchedSet rs js ↔
    x ≠ "null" ∧ x ∈ normalize_skill <$> js ∧ x ∈ normalize_skill <$> rs.
Proof.
  unfold matchedSet, requiredSet, resumeSet.
  rewrite elem_of_intersection, !elem_of_skillSet, !list_elem_of_fmap.
  naive_solver.
Qed.

Lemma elem_of_missingSet (rs js : list string) (x : string) :
  x ∈ missingSet rs js ↔
    x ≠ "null" ∧ x ∈ normalize_skill <$> js ∧ x ∉ normalize_skill <$> rs.
Proof.
  unfold missingSet, requiredSet, resumeSet.
  rewrite elem_of_difference, !elem_of_skillSet, !list_elem_of_fmap.
  naive_solver.
Qed.

(** [match_skills] returns, and what it returns in terms of the sets of the
    design document. *)
Lemma match_skills_result (rs js : list string) :
  match_skills rs js =
    Ok {| score_percentage :=
            score_formula (size (matchedSet rs js)) (size (requiredSet js));
          matched_skills :=
            sorted (filter (λ s, normalize_skill s ∈ matchedSet rs js) js);
          missing_skills :=
            sorted (filter (λ s, normalize_skill s ∈ missingSet rs js) js);
          total_skills_count := size (requiredSet js);
          matched_count := size (matchedSet rs js) |}.
Proof.
  unfold match_skills, score_formula, truediv. rewrite !discard_null.
  fold (requiredSet js) (resumeSet rs).
  fold (matchedSet rs js) (missingSet rs js).
  destruct (decide (0 < size (requiredSet js))) as [Hpos|Hzero]; [|done].
  by rewrite decide_False by lia.
Qed.

(** C1: for every pair of skill lists, [match_skills] returns, and its
    [score_percentage] is [round(|matchedSet| / |requiredSet| * 100, 1)] when
    the normalized, null-filtered required set is not empty and [0] when it
    is empty, the two sets being the ones of the design document. On
    [["Python", "SQL"]] against [["Python", "SQL", "Go"]] the score is [66.7],
    the matched skills are [["Python", "SQL"]], the missing ones [["Go"]]. *)
#[warnings="-inexact-float"]
Theorem match_skills_score :
  (∀ rs js : list string,
     ∃ r, match_skills rs js = Ok r
       ∧ (∀ x, x ∈ requiredSet js ↔
                 x ≠ "null" ∧ ∃ s, s ∈ js ∧ normalize_skill s = x)
       ∧ (∀ x, x ∈ matchedSet rs js ↔
                 x ≠ "null" ∧ x ∈ normalize_skill <$> js
                 ∧ x ∈ normalize_skill <$> rs)
       ∧ total_skills_count r = size (requiredSet js)
       ∧ matched_count r = size (matchedSet rs js)
       ∧ score_percentage r =
           score_formula (size (matchedSet rs js)) (size (requiredSet js))
       ∧ score_percentage r =
           if decide (size (requiredSet js) = 0) then PyInt 0
           else PyFloat (round1 (quotient (size (matchedSet rs js))
                                          (size (requiredSet js)) * 100)))
  ∧ match_skills ["Python"; "SQL"] ["Python"; "SQL"; "Go"] =
      Ok {| score_percentage := PyFloat 66.7;
            matched_skills := ["Python"; "SQL"];
            missing_skills := ["Go"];
            total_skills_count := 3;
            matched_count := 2 |}.
Proof.
  split; [|vm_compute; reflexivity].
  intros rs js. eexists. split; [apply match_skills_result|]. simpl.
  split; [apply elem_of_skillSet|]. split; [apply elem_of_matchedSet|].
  repeat split. unfold score_formula.
  destruct (decide (size (requiredSet js) = 0)) as [->|Hne]; [done|].
  by rewrite decide_True by lia.
Qed.

Lemma null_not_in_skillSet (skills : list string) : "null" ∉ skillSet skills.
Proof. rewrite elem_of_skillSet. naive_solver. Qed.

Lemma elem_of_sorted (l : list string) (s : string) : s ∈ sorted l ↔ s ∈ l.
Proof. unfold sorted. by rewrite merge_sort_Permutation. Qed.

Lemma requiredSet_Null : requiredSet ["Null"] = ∅.
Proof. vm_compute. reflexivity. Qed.

Lemma matchedSet_empty_required (rs js : list string) :
  requiredSet js = ∅ → matchedSet rs js = ∅.
Proof.
  intros Hreq. unfold matchedSet. rewrite Hreq. apply set_eq. intros x.
  rewrite elem_of_intersection. split.
  - intros [Hx _]. exact Hx.
  - intros Hx. exfalso. exact (not_elem_of_empty x Hx).
Qed.

Lemma missingSet_empty_required (rs js : list string) :
  requiredSet js = ∅ → missingSet rs js = ∅.
Proof.
  intros Hreq. unfold missingSet. rewrite Hreq. apply set_eq. intros x.
  rewrite elem_of_difference. split.
  - intros [Hx _]. exact Hx.
  - intros Hx. exfalso. exact (not_elem_of_empty x Hx).
Qed.

(** C2: an entry whose normal form is the sentinel ["null"], whatever its
    case, is in neither of the two sets that are compared, and so in neither
    output list and not in the count of required skills; [match_skills] returns
    a result for every input, the quotient being computed only for a divisor
    that is not zero; against the required list [["Null"]] the count is [0] and
    the score is [0]. *)
Theorem match_skills_null_sentinel :
  (∀ rs js : list string,
     ("null" ∉ resumeSet rs) ∧ ("null" ∉ requiredSet js)
     ∧ ∃ r, match_skills rs js = Ok r
         ∧ total_skills_count r = size (requiredSet js)
         ∧ matched_count r = size (requiredSet js ∩ resumeSet rs)
         ∧ (∀ s, normalize_skill s = "null" →
                 (s ∉ matched_skills r) ∧ (s ∉ missing_skills r))
         ∧ (total_skills_count r = 0 → score_percentage r = PyInt 0))
  ∧ normalize_skill "Null" = "null"
  ∧ normalize_skill " nULL  " = "null"
  ∧ (∀ rs : list string,
       match_skills rs ["Null"] =
         Ok {| score_percentage := PyInt 0;
               matched_skills := [];
               missing_skills := [];
               total_skills_count := 0;
               matched_count := 0 |}).
Proof.
  split; [|split; [done|split; [done|]]].
  - intros rs js. split; [apply null_not_in_skillSet|].
    split; [apply null_not_in_skillSet|].
    eexists. split; [apply match_skills_result|]. simpl. repeat split.
    + rewrite elem_of_sorted, list_elem_of_filter, H.
      intros [[? _]%elem_of_matchedSet _]. done.
    + rewrite elem_of_sorted, list_elem_of_filter, H.
      intros [[? _]%elem_of_missingSet _]. done.
    + intros ->. done.
  - intros rs. rewrite match_skills_result.
    rewrite (matchedSet_empty_required rs ["Null"] requiredSet_Null).
    rewrite (missingSet_empty_required rs ["Null"] requiredSet_Null).
    rewrite requiredSet_Null. reflexivity.
Qed.

Lemma filter_ext_in {A : Type} (P1 P2 : A → Prop)
    `{!∀ x, Decision (P1 x), !∀ x, Decision (P2 x)} (l : list A) :
  (∀ x, x ∈ l → (P1 x ↔ P2 x)) → filter P1 l = filter P2 l.
Proof.
  induction l as [|a l IH]; intros Hiff; [done|].
  rewrite !filter_cons. rewrite IH by (intros x Hx; apply Hiff; by right).
  destruct (decide (P1 a)) as [H1|H1], (decide (P2 a)) as [H2|H2]; try done.
  - destruct H2. apply Hiff; [left|done].
  - destruct H1. apply Hiff; [left|done].
Qed.

Lemma filter_none {A : Type} (P : A → Prop) `{!∀ x, Decision (P x)} (l : list A) :
  (∀ x, x ∈ l → ¬ P x) → filter P l = [].
Proof.
  induction l as [|a l IH]; intros Hno; [done|].
  rewrite filter_cons_False by (apply Hno; left).
  apply IH. intros x Hx. apply Hno. by right.
Qed.

(** C3: the matched (resp. missing) list holds exactly the entries of the
    required-skill input, in their original spelling, whose normal form is in
    the matched (resp. missing) set, each as many times as it occurs in the
    input: the two lists are permutations of the input filtered. Two
    spellings of one skill are both listed. *)
Theorem match_skills_original_spellings :
  (∀ rs js : list string,
     ∃ r, match_skills rs js = Ok r
       ∧ matched_skills r ≡ₚ
           filter (λ s, normalize_skill s ∈ matchedSet rs js) js
       ∧ missing_skills r ≡ₚ
           filter (λ s, normalize_skill s ∈ missingSet rs js) js
       ∧ matched_skills r ≡ₚ
           filter (λ s, normalize_skill s ≠ "null"
                        ∧ normalize_skill s ∈ normalize_skill <$> rs) js
       ∧ missing_skills r ≡ₚ
           filter (λ s, normalize_skill s ≠ "null"
                        ∧ normalize_skill s ∉ normalize_skill <$> rs) js)
  ∧ match_skills ["aws"] ["AWS"; "Go"; "aws"; "go"; "AWS"] =
      Ok {| score_percentage := PyFloat 50;
            matched_skills := ["AWS"; "AWS"; "aws"];
            missing_skills := ["Go"; "go"];
            total_skills_count := 2;
            matched_count := 1 |}.
Proof.
  split; [|vm_compute; reflexivity].
  intros rs js. eexists. split; [apply match_skills_result|]. simpl.
  unfold sorted. rewrite !merge_sort_Permutation.
  split; [done|]. split; [done|]. split.
  - erewrite filter_ext_in; [done|]. intros s Hs. simpl.
    rewrite elem_of_matchedSet, list_elem_of_fmap. naive_solver.
  - erewrite filter_ext_in; [done|]. intros s Hs. simpl.
    rewrite elem_of_missingSet, list_elem_of_fmap. naive_solver.
Qed.

(** ** Sorting *)

Lemma sorted_sorted (l : list string) : StronglySorted String.le (sorted l).
Proof. apply StronglySorted_merge_sort; apply _. Qed.

Lemma sorted_perm (l l' : list string) : l ≡ₚ l' → sorted l = sorted l'.
Proof.
  intros Hl. apply (StronglySorted_unique String.le); try apply sorted_sorted.
  unfold sorted. by rewrite !merge_sort_Permutation.
Qed.

Lemma skillSet_perm (l l' : list string) : l ≡ₚ l' → skillSet l = skillSet l'.
Proof.
  intros Hl. apply set_eq. intros x. rewrite !elem_of_skillSet.
  by setoid_rewrite Hl.
Qed.

(** C7: the matched and the missing list are sorted by the order of Python on
    strings, the one of the code points of the original spellings, and the
    result is the same for every order of the two inputs. *)
Theorem match_skills_sorted (rs rs' js js' : list string) :
  rs ≡ₚ rs' → js ≡ₚ js' →
  ∃ r, match_skills rs js = Ok r
     ∧ match_skills rs' js' = Ok r
     ∧ StronglySorted String.le (matched_skills r)
     ∧ StronglySorted String.le (missing_skills r).
Proof.
  intros Hrs Hjs. eexists. split; [apply match_skills_result|].
  split; [|split; apply sorted_sorted].
  rewrite match_skills_result. unfold matchedSet, missingSet, requiredSet, resumeSet.
  rewrite <-(skillSet_perm _ _ Hrs), <-(skillSet_perm _ _ Hjs).
  f_equal. f_equal; apply sorted_perm; by rewrite Hjs.
Qed.

Lemma match_skills_sorted_witness :
  ∃ r, match_skills ["SQL"; "Python"] ["go"; "SQL"; "Python"; "Go"] = Ok r
     ∧ match_skills ["Python"; "SQL"] ["SQL"; "go"; "Python"; "Go"] = Ok r
     ∧ StronglySorted String.le (matched_skills r)
     ∧ StronglySorted String.le (missing_skills r).
Proof.
  apply (match_skills_sorted ["SQL"; "Python"] ["Python"; "SQL"]
           ["go"; "SQL"; "Python"; "Go"] ["SQL"; "go"; "Python"; "Go"]);
    apply perm_swap.
Defined.

(** C8: with no resume skill, no required skill is matched: the score is
    zero, the [int] [0] when the required set is empty and the [float] [0.0]
    otherwise, and the missing list is the whole required set, every required
    entry that is not the sentinel, sorted. This holds for every
    required-skill list, the non-empty ones among them. *)
Theorem match_skills_empty_resume (js : list string) :
  ∃ r, match_skills [] js = Ok r
     ∧ score_percentage r =
         (if decide (size (requiredSet js) = 0) then PyInt 0 else PyFloat 0)
     ∧ matched_skills r = []
     ∧ matched_count r = 0
     ∧ missing_skills r = sorted (filter (λ s, normalize_skill s ≠ "null") js)
     ∧ (list_to_set (normalize_skill <$> missing_skills r) : gset string)
         = requiredSet js.
Proof.
  assert (Hm : matchedSet [] js = ∅).
  { apply set_eq. intros x. rewrite elem_of_matchedSet.
    split; [|by intros ?%not_elem_of_empty]. by intros (_ & _ & ?%elem_of_nil). }
  assert (Hmiss : ∀ s, s ∈ js →
            (normalize_skill s ∈ missingSet [] js ↔ normalize_skill s ≠ "null")).
  { intros s Hs. rewrite elem_of_missingSet, list_elem_of_fmap.
    split; [naive_solver|]. intros Hn. split; [done|].
    split; [eauto|]. by intros ?%elem_of_nil. }
  eexists. split; [apply match_skills_result|]. simpl.
  rewrite Hm, size_empty. split.
  { unfold score_formula. destruct (decide (size (requiredSet js) = 0)) as [->|Hne].
    - done.
    - rewrite decide_True by lia. vm_compute. reflexivity. }
  split.
  { rewrite filter_none; [done|]. intros s _ Hs. by apply not_elem_of_empty in Hs. }
  split; [done|]. split.
  { f_equal. by apply filter_ext_in. }
  apply set_eq. intros x.
  rewrite elem_of_list_to_set, list_elem_of_fmap. unfold requiredSet.
  rewrite elem_of_skillSet. setoid_rewrite elem_of_sorted.
  setoid_rewrite list_elem_of_filter. split.
  - intros (s & -> & Hin & Hs). apply Hmiss in Hin; naive_solver.
  - intros (Hx & s & Hs & <-). exists s. split; [done|]. split; [|done].
    by apply Hmiss.
Qed.

Lemma split_go_spaces (cur s : string) :
  Str.all Char.isspace s = true →
  Str.split_go cur s = if decide (cur = EmptyString) then [] else [cur].
Proof.
  revert cur. unfold Str.all. induction s as [|c s IH]; intros cur Hs; [done|].
  simpl in *. apply andb_true_iff in Hs as [-> Hs].
  rewrite (IH EmptyString Hs). by case_decide.
Qed.

(** C10: a skill that is empty or all white space has the empty string as its
    normal form, which is not the sentinel: it is a skill like any other.
    Every required entry whose normal form is not ["null"] counts in the
    denominator and is listed as matched or as missing. The resume [[" "]]
    against the requirement [["  "]] gives a count of 1 and a score of 100. *)
Theorem match_skills_blank_skill :
  match_skills [" "] ["  "] =
    Ok {| score_percentage := PyFloat 100;
          matched_skills := ["  "];
          missing_skills := [];
          total_skills_count := 1;
          matched_count := 1 |}
  ∧ (∀ s, Str.all Char.isspace s = true → normalize_skill s = EmptyString)
  ∧ (∀ (rs js : list string) (s : string),
       s ∈ js → normalize_skill s ≠ "null" →
       ∃ r, match_skills rs js = Ok r
          ∧ normalize_skill s ∈ requiredSet js
          ∧ 0 < total_skills_count r
          ∧ (s ∈ matched_skills r ∨ s ∈ missing_skills r)).
Proof.
  split; [vm_compute; reflexivity|]. split.
  - intros s Hs. rewrite normalize_skill_words. unfold Str.split.
    by rewrite split_go_spaces.
  - intros rs js s Hs Hn. eexists. split; [apply match_skills_result|]. simpl.
    assert (Hreq : normalize_skill s ∈ requiredSet js).
    { apply elem_of_skillSet. eauto. }
    split; [done|]. split.
    { destruct (decide (size (requiredSet js) = 0)) as [Hz|]; [|lia].
      apply size_empty_inv in Hz. by apply Hz in Hreq. }
    rewrite !elem_of_sorted, !list_elem_of_filter.
    unfold matchedSet, missingSet.
    destruct (decide (normalize_skill s ∈ resumeSet rs)); [left|right];
      (split; [set_solver|done]).
Qed.

(** ** The recommendation fetcher *)

Lemma elem_of_add_key (ks : list string) (k x : string) :
  x ∈ add_key ks k ↔ x ∈ ks ∨ x = k.
Proof.
  unfold add_key. case_decide; [naive_solver|].
  rewrite elem_of_app, list_elem_of_singleton. done.
Qed.

Lemma NoDup_add_key (ks : list string) (k : string) :
  NoDup ks → NoDup (add_key ks k).
Proof.
  unfold add_key. case_decide; [done|]. intros Hks.
  apply NoDup_app. split; [done|]. split; [|apply NoDup_singleton].
  by intros x Hx ->%list_elem_of_singleton.
Qed.

Lemma elem_of_keys_after (ks l : list string) (x : string) :
  x ∈ keys_after ks l ↔ x ∈ ks ∨ x ∈ l.
Proof.
  revert ks. induction l as [|k l IH]; intros ks; simpl.
  - rewrite elem_of_nil. naive_solver.
  - unfold keys_after in *. simpl. rewrite IH, elem_of_add_key, elem_of_cons.
    naive_solver.
Qed.

Lemma NoDup_keys_after (ks l : list string) :
  NoDup ks → NoDup (keys_after ks l).
Proof.
  revert ks. induction l as [|k l IH]; intros ks Hks; [done|].
  apply IH. by apply NoDup_add_key.
Qed.

Lemma keys_after_NoDup (ks l : list string) :
  NoDup (ks ++ l) → keys_after ks l = ks ++ l.
Proof.
  revert ks. induction l as [|k l IH]; intros ks Hks; simpl.
  - by rewrite app_nil_r.
  - unfold keys_after in *. simpl. unfold add_key at 2.
    rewrite decide_False.
    + rewrite IH; rewrite <-app_assoc; done.
    + apply NoDup_app in Hks as (_ & Hks & _). intros Hk. apply (Hks k Hk). left.
Qed.

Lemma length_keys_after (ks l : list string) :
  length (keys_after ks l) ≤ length ks + length l.
Proof.
  revert ks. induction l as [|k l IH]; intros ks; simpl; [lia|].
  unfold keys_after in *. simpl. etrans; [apply IH|].
  unfold add_key. case_decide; [lia|]. rewrite length_app. simpl. lia.
Qed.

Lemma dict_keys_setitem {V : Type} (d : list (string * V)) (k : string) (v : V) :
  dict_keys (dict_setitem d k v) = add_key (dict_keys d) k.
Proof.
  unfold dict_keys, add_key. induction d as [|[k' v'] d IH].
  - done.
  - cbn [dict_setitem]. destruct (decide (k' = k)) as [->|Hne].
    + rewrite !fmap_cons. cbn [fst]. rewrite decide_True; [done|]. left.
    + rewrite !fmap_cons, IH. cbn [fst].
      destruct (decide (k ∈ d.*1)) as [Hin|Hnin].
      * rewrite decide_True; [done|]. by right.
      * rewrite decide_False; [done|]. rewrite elem_of_cons. naive_solver.
Qed.

Lemma dict_get_setitem {V : Type} (d : list (string * V)) (k k' : string) (v : V) :
  dict_get (dict_setitem d k v) k' =
    if decide (k = k') then Some v else dict_get d k'.
Proof.
  induction d as [|[k0 v0] d IH]; simpl.
  - done.
  - destruct (decide (k0 = k)) as [->|Hne]; simpl.
    + by destruct (decide (k = k')).
    + rewrite IH. destruct (decide (k0 = k')) as [->|]; [|done].
      by rewrite decide_False.
Qed.

Lemma dict_get_keys {V : Type} (d : list (string * V)) (k : string) :
  is_Some (dict_get d k) ↔ k ∈ dict_keys d.
Proof.
  unfold dict_keys. induction d as [|[k0 v0] d IH]; simpl.
  - rewrite elem_of_nil. split; [by intros [? ?]|done].
  - rewrite elem_of_cons. destruct (decide (k0 = k)) as [->|Hne].
    + split; [by left|eauto].
    + rewrite IH. naive_solver.
Qed.

Lemma extends_refl (st : State) : extends st st [] [].
Proof. unfold extends. by rewrite !app_nil_r. Qed.

Lemma extends_trans (st1 st2 st3 : State) (r1 r2 : list Request) (e1 e2 : list Course) :
  extends st1 st2 r1 e1 → extends st2 st3 r2 e2 →
  extends st1 st3 (r1 ++ r2) (e1 ++ e2).
Proof.
  unfold extends. intros (-> & -> & ->) (-> & -> & ->).
  by rewrite !app_assoc.
Qed.

Section FetcherFacts.

Variable randbelow : list Request → nat → nat.
Variable requests_get : list Request → Request → result Response.
Variable soup_select : string → string → result (list Tag).
Variable uddg : string → result string.

Notation safe_request := (_safe_request randbelow requests_get).
Notation ddg := (ddg_body randbelow requests_get soup_select uddg).
Notation coursera := (coursera_body randbelow requests_get soup_select).
Notation step := (fetch_skill randbelow requests_get soup_select uddg).
Notation fetch := (fetch_courses_for_skills randbelow requests_get soup_select uddg).
Notation primary := (after_primary randbelow requests_get soup_select uddg).
Notation fallback := (after_fallback randbelow requests_get soup_select).

(** The user agent that [random.choice] draws in the state [st]. *)
Notation agent st :=
  (nth (randbelow (requests st) (length USER_AGENTS) `mod` length USER_AGENTS)
     USER_AGENTS EmptyString).

(** [_safe_request] sends one request and never raises: it returns [None]
    when [requests.get] raises. *)
Lemma safe_request_run (u : string) (st : State) :
  let req := {| url := u; user_agent := agent st |} in
  safe_request u st =
    (Ok (match requests_get (requests st) req with
         | Ok r => Some r
         | Raise _ => None
         end),
     {| requests := requests st ++ [req]; skill_recs := skill_recs st;
        recommendations := recommendations st |}).
Proof.
  unfold _safe_request, random_choice, gets, try_except, http_get.
  unfold mbind, M_bind, mret, M_ret. simpl.
  by destruct (requests_get _ _).
Qed.

Lemma safe_request_extends (u : string) (st : State) :
  extends st (safe_request u st).2 [{| url := u; user_agent := agent st |}] [].
Proof. rewrite safe_request_run. unfold extends. simpl. by rewrite app_nil_r. Qed.

(** One anchor of the search page adds at most one recommendation, and none
    when it raises. *)
Lemma ddg_tag_run (tag : Tag) (st : State) :
  ∃ extra, extends st (ddg_tag uddg tag st).2 [] extra
         ∧ length extra ≤ 1
         ∧ (∀ e, (ddg_tag uddg tag st).1 = Raise e → extra = []).
Proof.
  unfold ddg_tag, lift, skill_recs_append, modify.
  unfold mbind, M_bind, mret, M_ret.
  destruct (Str.contains (href tag) "uddg=").
  - destruct (uddg (href tag)) as [l|e]; simpl.
    + destruct (Str.startswith l "http"); simpl.
      * eexists [_]. unfold extends. simpl. rewrite app_nil_r. by repeat split.
      * exists []. split; [apply extends_refl|]. split; [simpl; lia|done].
    + exists []. split; [apply extends_refl|]. split; [simpl; lia|done].
  - destruct (Str.startswith (href tag) "http"); simpl.
    + eexists [_]. unfold extends. simpl. rewrite app_nil_r. by repeat split.
    + exists []. split; [apply extends_refl|]. split; [simpl; lia|done].
Qed.

(** The loop over the anchors adds at most one recommendation for each, and
    fewer than there are anchors when it is left by an exception. *)
Lemma ddg_loop_run (tags : list Tag) (st : State) :
  ∃ extra, extends st (for_each tags (ddg_tag uddg) st).2 [] extra
         ∧ length extra ≤ length tags
         ∧ (∀ e, (for_each tags (ddg_tag uddg) st).1 = Raise e →
                 length extra < length tags).
Proof.
  revert st. induction tags as [|tag tags IH]; intros st.
  - exists []. split; [apply extends_refl|]. split; [done|]. intros e. by simpl.
  - destruct (ddg_tag_run tag st) as (e1 & Hext1 & Hlen1 & Hraise1).
    simpl. unfold mbind, M_bind.
    destruct (ddg_tag uddg tag st) as [[[]|e] st1] eqn:Ht; simpl in *.
    + destruct (IH st1) as (e2 & Hext2 & Hlen2 & Hraise2).
      exists (e1 ++ e2). split; [apply (extends_trans _ _ _ [] [] _ _ Hext1 Hext2)|].
      rewrite length_app. split; [lia|]. intros e He.
      specialize (Hraise2 e He). lia.
    + exists e1. rewrite (Hraise1 e eq_refl) in *. split; [done|].
      split; simpl; [lia|]. intros _ _. lia.
Qed.

Lemma coursera_tag_run (a : Tag) (st : State) :
  coursera_tag a st =
    (Ok tt,
     {| requests := requests st;
        skill_recs :=
          skill_recs st
          ++ [{| title := get_text a;
                 link := "https://www.coursera.org" +:+ href a |}];
        recommendations := recommendations st |}).
Proof. reflexivity. Qed.

Lemma coursera_loop_run (tags : list Tag) (st : State) :
  ∃ extra, extends st (for_each tags coursera_tag st).2 [] extra
         ∧ length extra = length tags
         ∧ (for_each tags coursera_tag st).1 = Ok tt.
Proof.
  revert st. induction tags as [|tag tags IH]; intros st.
  - exists []. split; [apply extends_refl|]. done.
  - cbn [for_each]. unfold mbind, M_bind. rewrite coursera_tag_run.
    match goal with |- context [for_each tags coursera_tag ?s] =>
      destruct (IH s) as (e2 & Hext2 & Hlen2 & Hok2) end.
    eexists (_ :: e2). split; [|split; [simpl; by rewrite Hlen2|done]].
    destruct Hext2 as (Hr & Hs & Hd). unfold extends. rewrite Hr, Hs, Hd. simpl.
    by rewrite <-app_assoc.
Qed.

(** What [_safe_request] returns for the address [u] in the state [st]. *)
Notation answer u st :=
  (match requests_get (requests st) {| url := u; user_agent := agent st |} with
   | Ok r => Some r
   | Raise _ => None
   end).

(** The state after the request to the address [u] in the state [st]. *)
Notation sent u st :=
  {| requests := requests st ++ [{| url := u; user_agent := agent st |}];
     skill_recs := skill_recs st;
     recommendations := recommendations st |}.

Lemma sent_extends (u : string) (st : State) :
  extends st (sent u st) [{| url := u; user_agent := agent st |}] [].
Proof. unfold extends. simpl. by rewrite app_nil_r. Qed.

Lemma ddg_body_eq (skill : string) (st : State) :
  ddg skill st =
    match usable (answer (ddg_url skill) st) with
    | Some r =>
        match soup_select (text r) "a.result__a" with
        | Ok tags => for_each (take 2 tags) (ddg_tag uddg) (sent (ddg_url skill) st)
        | Raise e => (Raise e, sent (ddg_url skill) st)
        end
    | None => (Ok tt, sent (ddg_url skill) st)
    end.
Proof.
  unfold ddg_body. unfold mbind at 1, M_bind at 1.
  rewrite safe_request_run. cbv zeta.
  destruct (usable (answer (ddg_url skill) st)) as [r|]; [|done].
  unfold lift, mbind, M_bind. by destruct (soup_select (text r) "a.result__a").
Qed.

Lemma coursera_body_eq (skill : string) (st : State) :
  coursera skill st =
    match usable (answer (coursera_url skill) st) with
    | Some r =>
        match soup_select (text r) coursera_selector with
        | Ok tags => for_each (take 1 tags) coursera_tag (sent (coursera_url skill) st)
        | Raise e => (Raise e, sent (coursera_url skill) st)
        end
    | None => (Ok tt, sent (coursera_url skill) st)
    end.
Proof.
  unfold coursera_body. unfold mbind at 1, M_bind at 1.
  rewrite safe_request_run. cbv zeta.
  destruct (usable (answer (coursera_url skill) st)) as [r|]; [|done].
  unfold lift, mbind, M_bind. by destruct (soup_select (text r) coursera_selector).
Qed.

(** The search-engine provider: one request, at most two recommendations;
    none when the request fails or the page cannot be read, at most one
    when the loop over the anchors is left by an exception. *)
Lemma ddg_body_run (skill : string) (st : State) :
  ∃ extra,
    extends st (ddg skill st).2
      [{| url := ddg_url skill; user_agent := agent st |}] extra
    ∧ length extra ≤ 2
    ∧ (∀ e, (ddg skill st).1 = Raise e → length extra ≤ 1)
    ∧ (usable (answer (ddg_url skill) st) = None → extra = [])
    ∧ (∀ r e, usable (answer (ddg_url skill) st) = Some r →
              soup_select (text r) "a.result__a" = Raise e → extra = []).
Proof.
  rewrite ddg_body_eq.
  pose proof (sent_extends (ddg_url skill) st) as Hreq.
  destruct (usable (answer (ddg_url skill) st)) as [r|] eqn:Hu.
  - destruct (soup_select (text r) "a.result__a") as [tags|e0] eqn:Hsel.
    + destruct (ddg_loop_run (take 2 tags) (sent (ddg_url skill) st))
        as (extra & Hext & Hlen & Hraise).
      exists extra. rewrite length_take in Hlen, Hraise.
      split; [apply (extends_trans _ _ _ _ _ [] _ Hreq Hext)|].
      split; [lia|]. split; [|split; [done|]].
      * intros e He. specialize (Hraise e He). lia.
      * intros r' e' [= <-]. by rewrite Hsel.
    + exists []. split; [done|]. repeat split; simpl; lia || done.
  - exists []. split; [done|]. repeat split; simpl; lia || done.
Qed.

(** The course-catalog provider: one request, at most one recommendation,
    and none whenever its call fails. *)
Lemma coursera_body_run (skill : string) (st : State) :
  ∃ extra,
    extends st (coursera skill st).2
      [{| url := coursera_url skill; user_agent := agent st |}] extra
    ∧ length extra ≤ 1
    ∧ (∀ e, (coursera skill st).1 = Raise e → extra = [])
    ∧ (usable (answer (coursera_url skill) st) = None → extra = []).
Proof.
  rewrite coursera_body_eq.
  pose proof (sent_extends (coursera_url skill) st) as Hreq.
  destruct (usable (answer (coursera_url skill) st)) as [r|] eqn:Hu.
  - destruct (soup_select (text r) coursera_selector) as [tags|e0] eqn:Hsel.
    + destruct (coursera_loop_run (take 1 tags) (sent (coursera_url skill) st))
        as (extra & Hext & Hlen & Hok).
      exists extra. rewrite length_take in Hlen.
      split; [apply (extends_trans _ _ _ _ _ [] _ Hreq Hext)|].
      split; [lia|]. split; [|done].
      intros e He. rewrite Hok in He. done.
    + exists []. split; [done|]. repeat split; simpl; lia || done.
  - exists []. split; [done|]. repeat split; simpl; lia || done.
Qed.

(** [try: body / except: pass] ends normally, in the state that [body]
    reached. *)
Lemma try_pass_run (body : M unit) (st : State) :
  try_except body (mret tt) st = (Ok tt, (body st).2).
Proof. unfold try_except. by destruct (body st) as [[[]|e] st']. Qed.

(** One iteration of the loop over the skills. *)
Lemma fetch_skill_run (skill : string) (st : State) :
  let st1 := primary skill st in
  let st2 := if decide (length (skill_recs st1) < 2)
             then fallback skill st1 else st1 in
  step skill st =
    (Ok tt,
     {| requests := requests st2; skill_recs := skill_recs st2;
        recommendations :=
          dict_setitem (recommendations st2) skill (skill_recs st2) |}).
Proof.
  unfold fetch_skill, after_primary, after_fallback, exec.
  unfold mbind at 1, M_bind at 1. unfold set_skill_recs at 1, modify at 1.
  unfold mbind at 1, M_bind at 1. rewrite try_pass_run.
  unfold mbind at 1, M_bind at 1. unfold gets at 1.
  unfold mbind at 1, M_bind at 1.
  rewrite !try_pass_run. simpl. case_decide; [rewrite try_pass_run|]; done.
Qed.

Lemma primary_run (skill : string) (st : State) :
  requests (primary skill st)
    = requests st ++ [{| url := ddg_url skill; user_agent := agent st |}]
  ∧ recommendations (primary skill st) = recommendations st
  ∧ length (skill_recs (primary skill st)) ≤ 2.
Proof.
  unfold after_primary, exec. rewrite try_pass_run. cbn [snd].
  unfold set_skill_recs, modify. cbn [snd].
  match goal with |- context [ddg skill ?s] =>
    destruct (ddg_body_run skill s) as (p & (Hr1 & Hs1 & Hd1) & Hp & _) end.
  simpl in Hr1, Hs1, Hd1. rewrite Hr1, Hs1, Hd1. done.
Qed.

Lemma fallback_run (skill : string) (st1 : State) :
  ∃ f, extends st1 (fallback skill st1)
         [{| url := coursera_url skill; user_agent := agent st1 |}] f
     ∧ length f ≤ 1.
Proof.
  unfold after_fallback, exec. rewrite try_pass_run. cbn [snd].
  destruct (coursera_body_run skill st1) as (f & Hext & Hf & _). eauto.
Qed.

(** One iteration, provider by provider: the recommendations of the skill
    are the ones of the first provider, at most two, followed by the ones
    of the second, at most one; the second provider is asked exactly when
    the first one gave fewer than two. *)
Lemma fetch_skill_providers (skill : string) (st : State) :
  let p := skill_recs (primary skill st) in
  let after := exec (step skill) st in
  ∃ f, skill_recs after = p ++ f
     ∧ length p ≤ 2 ∧ length f ≤ 1
     ∧ url <$> requests after =
         (url <$> requests st)
         ++ ddg_url skill
            :: (if decide (length p < 2) then [coursera_url skill] else [])
     ∧ recommendations after =
         dict_setitem (recommendations st) skill (p ++ f).
Proof.
  cbv zeta. unfold exec. rewrite fetch_skill_run. cbv zeta.
  cbn [snd requests skill_recs recommendations].
  destruct (primary_run skill st) as (Hr1 & Hd1 & Hp).
  destruct (decide (length (skill_recs (primary skill st)) < 2)) as [Hlt|Hge].
  - destruct (fallback_run skill (primary skill st)) as (f & (Hr2 & Hs2 & Hd2) & Hf).
    exists f. rewrite Hs2, Hr2, Hr1, Hd2, Hd1.
    repeat split; [done..|].
    rewrite !fmap_app. simpl. by rewrite <-app_assoc.
  - exists []. rewrite Hr1, Hd1, app_nil_r. repeat split; [done|simpl; lia|].
    by rewrite fmap_app.
Qed.

Lemma fetch_skill_ok (skill : string) (st : State) : (step skill st).1 = Ok tt.
Proof. by rewrite fetch_skill_run. Qed.

Lemma fetch_skill_requests (skill : string) (st : State) :
  requests st `prefix_of` requests (exec (step skill) st).
Proof.
  unfold exec. rewrite fetch_skill_run. cbv zeta. cbn [snd requests].
  destruct (primary_run skill st) as (Hr1 & _).
  case_decide.
  - destruct (fallback_run skill (primary skill st)) as (f & (Hr2 & _) & _).
    rewrite Hr2, Hr1, <-app_assoc. by apply prefix_app_r.
  - rewrite Hr1. by apply prefix_app_r.
Qed.

Lemma for_each_cons_ok {A : Type} (body : A → M unit) (x : A) (l : list A)
    (st : State) :
  (body x st).1 = Ok tt →
  for_each (x :: l) body st = for_each l body (exec (body x) st).
Proof.
  unfold exec. cbn [for_each]. unfold mbind, M_bind.
  by destruct (body x st) as [[[]|e] st1]; intros [=].
Qed.

(** The loop over the skills ends normally; it assigns the keys in order;
    and every value of the mapping is the list of one iteration. *)
Lemma fetch_loop_run (l : list string) (st : State) :
  let final := exec (for_each l step) st in
  (for_each l step st).1 = Ok tt
  ∧ requests st `prefix_of` requests final
  ∧ dict_keys (recommendations final)
      = keys_after (dict_keys (recommendations st)) l
  ∧ ∀ k v, dict_get (recommendations final) k = Some v →
      ((k ∉ l) ∧ dict_get (recommendations st) k = Some v)
      ∨ (k ∈ l ∧ ∃ st_k,
           requests (exec (step k) st_k) `prefix_of` requests final
           ∧ v = skill_recs (exec (step k) st_k)).
Proof.
  revert st. induction l as [|s l IH]; intros st; cbv zeta.
  - unfold exec. cbn [for_each]. split; [done|]. split; [done|]. split; [done|].
    intros k v Hk. left. split; [apply not_elem_of_nil|done].
  - pose proof (IH (exec (step s) st)) as (Hok' & Hpre' & Hkeys & Hvals).
    destruct (fetch_skill_providers s st) as (f & Hrecs & _ & _ & _ & Hdict).
    pose proof (fetch_skill_requests s st) as Hpre.
    unfold exec in *.
    rewrite (for_each_cons_ok _ _ _ _ (fetch_skill_ok s st)). unfold exec.
    split; [done|]. split; [by etrans|]. split.
    { rewrite Hkeys, Hdict, dict_keys_setitem. done. }
    intros k v Hk. destruct (Hvals k v Hk) as [[Hnin Hget]|[Hin Hst]].
    + rewrite Hdict, dict_get_setitem in Hget.
      destruct (decide (s = k)) as [->|Hne].
      * right. split; [left|]. exists st. injection Hget as <-. done.
      * left. split; [|done]. rewrite elem_of_cons. naive_solver.
    + right. split; [by right|done].
Qed.

Lemma fetch_run (skills : list string) (st : State) :
  let final :=
    exec (for_each (take 3 skills) step)
      {| requests := requests st; skill_recs := skill_recs st;
         recommendations := [] |} in
  fetch skills st = (Ok (recommendations final), final).
Proof.
  cbv zeta. unfold fetch_courses_for_skills, exec.
  unfold mbind at 1, M_bind at 1, modify at 1.
  unfold mbind, M_bind, gets.
  match goal with |- context [for_each ?l step ?s] =>
    pose proof (fetch_loop_run l s) as (Hok & _);
    destruct (for_each l step s) as [[[]|e] st1] end; done.
Qed.



(** C4: every value of the mapping that [fetch_courses_for_skills] returns
    is the list that one iteration of the loop collected for its key, one of
    the first three skills: the recommendations of the search-engine
    provider, at most 2, followed by the ones of the course-catalog provider,
    at most 1. In that iteration the search engine is asked once, and the
    catalog is asked after it if and only if the search engine gave fewer
    than 2 recommendations: with 2 the catalog is not asked. *)
Theorem fetch_fallback_chain (skills : list string) (st : State)
    (k : string) (v : list Course) :
  dict_get (recommendations (exec (fetch skills) st)) k = Some v →
  k ∈ take 3 skills
  ∧ ∃ st_k,
      let p := skill_recs (primary k st_k) in
      let after := exec (step k) st_k in
      requests after `prefix_of` requests (exec (fetch skills) st)
      ∧ ∃ f, v = p ++ f
           ∧ length p ≤ 2 ∧ length f ≤ 1
           ∧ url <$> requests after =
               (url <$> requests st_k)
               ++ ddg_url k
                  :: (if decide (length p < 2) then [coursera_url k] else []).
Proof.
  unfold exec at 1 3. rewrite fetch_run. cbv zeta. cbn [snd]. intros Hget.
  pose proof (fetch_loop_run (take 3 skills)
                {| requests := requests st; skill_recs := skill_recs st;
                   recommendations := [] |}) as (_ & _ & _ & Hvals).
  destruct (Hvals k v Hget) as [[_ Hnone]|[Hin (st_k & Hpre & Hv)]]; [done|].
  split; [done|]. exists st_k. split; [done|].
  destruct (fetch_skill_providers k st_k) as (f & Hrecs & Hp & Hf & Hurl & _).
  exists f. rewrite Hv. done.
Qed.

(** C5: [fetch_courses_for_skills] returns a mapping whose keys are the
    first [min(3, length)] entries of its argument, in their spelling and
    in their order, a string that occurs twice being one key; no other
    string is a key. Of five skills the first three are keys. *)
Theorem fetch_first_three (skills : list string) (st : State) :
  ∃ recs, outcome (fetch skills) st = Ok recs
    ∧ dict_keys recs = keys_after [] (take 3 skills)
    ∧ length (take 3 skills) = 3 `min` length skills
    ∧ (∀ k, k ∈ dict_keys recs ↔ k ∈ take 3 skills)
    ∧ (∀ k, is_Some (dict_get recs k) ↔ k ∈ take 3 skills)
    ∧ NoDup (dict_keys recs)
    ∧ length (dict_keys recs) ≤ 3
    ∧ (NoDup (take 3 skills) → dict_keys recs = take 3 skills)
    ∧ (∀ a b c d e, skills = [a; b; c; d; e] → NoDup skills →
         dict_keys recs = [a; b; c] ∧ dict_get recs d = None
         ∧ dict_get recs e = None).
Proof.
  unfold outcome. rewrite fetch_run. cbv zeta. cbn [fst]. eexists. split; [done|].
  pose proof (fetch_loop_run (take 3 skills)
                {| requests := requests st; skill_recs := skill_recs st;
                   recommendations := [] |}) as (_ & _ & Hkeys & _).
  cbn [recommendations dict_keys fmap list_fmap] in Hkeys.
  assert (Hmem : ∀ k,
    k ∈ dict_keys (recommendations (exec (for_each (take 3 skills) step)
          {| requests := requests st; skill_recs := skill_recs st;
             recommendations := [] |})) ↔ k ∈ take 3 skills).
  { intros k. rewrite Hkeys, elem_of_keys_after, elem_of_nil. naive_solver. }
  split; [done|]. split; [apply length_take|]. split; [done|].
  split; [intros k; by rewrite dict_get_keys|].
  split; [rewrite Hkeys; apply NoDup_keys_after, NoDup_nil_2|].
  split.
  { rewrite Hkeys. etrans; [apply length_keys_after|]. rewrite length_take.
    cbn [length]. apply Nat.le_min_l. }
  split; [intros Hnd; rewrite Hkeys; by apply (keys_after_NoDup [])|].
  intros a b c d e -> Hnd. simpl in *.
  assert (Hnd3 : NoDup [a; b; c]).
  { apply (NoDup_app [a; b; c] [d; e]) in Hnd as (? & _). done. }
  split; [rewrite Hkeys; by apply (keys_after_NoDup [] [a; b; c])|].
  apply (NoDup_app [a; b; c] [d; e]) in Hnd as (_ & Hnot & _).
  split; apply eq_None_not_Some; rewrite dict_get_keys, Hmem; intros Hin;
    apply (Hnot _ Hin); set_solver.
Qed.






End FetcherFacts.


Lemma fetch_fallback_chain_witness :
  "Go" ∈ take 3 ["Go"; "Rust"]
  ∧ ∃ st_k,
      let p := skill_recs (after_primary Example.randbelow Example.requests_get_ok
                             Example.soup_select_ok Example.uddg "Go" st_k) in
      let after := exec (fetch_skill Example.randbelow Example.requests_get_ok
                           Example.soup_select_ok Example.uddg "Go") st_k in
      requests after `prefix_of`
        requests (exec (fetch_courses_for_skills Example.randbelow
                          Example.requests_get_ok Example.soup_select_ok
                          Example.uddg ["Go"; "Rust"]) initial)
      ∧ ∃ f, [{| title := "Go by Example"; link := "https://gobyexample.com" |};
              {| title := "A Tour of Go"; link := "https://go.dev/tour" |}]
             = p ++ f
           ∧ length p ≤ 2 ∧ length f ≤ 1
           ∧ url <$> requests after =
               (url <$> requests st_k)
               ++ ddg_url "Go"
                  :: (if decide (length p < 2) then [coursera_url "Go"] else []).
Proof.
  apply (fetch_fallback_chain Example.randbelow Example.requests_get_ok
           Example.soup_select_ok Example.uddg ["Go"; "Rust"] initial "Go").
  vm_compute. reflexivity.
Defined.

(** * More properties of the code *)

(** ** The matcher *)

Lemma skillSet_normal_forms (l l' : list string) :
  (∀ x, x ∈ normalize_skill <$> l ↔ x ∈ normalize_skill <$> l') →
  skillSet l = skillSet l'.
Proof.
  intros Hl. apply set_eq. intros x. rewrite !elem_of_skillSet.
  specialize (Hl x). rewrite !list_elem_of_fmap in Hl. naive_solver.
Qed.

(** X1: [match_skills] reads the resume skills through their normal forms
    only: two resume lists with the same normal forms, whatever the case, the
    white space, the order and the repetitions of their entries, give the same
    result against every requirement. *)
Theorem match_skills_resume_spelling (rs rs' js : list string) :
  (∀ x, x ∈ normalize_skill <$> rs ↔ x ∈ normalize_skill <$> rs') →
  match_skills rs js = match_skills rs' js.
Proof.
  intros Hrs. rewrite !match_skills_result.
  unfold matchedSet, missingSet, resumeSet.
  by rewrite (skillSet_normal_forms rs rs' Hrs).
Qed.

Lemma match_skills_resume_spelling_witness :
  match_skills ["AWS"; "sql"; "  aws "] ["Aws"; "SQL"; "Go"]
  = match_skills [" Sql"; "aws"] ["Aws"; "SQL"; "Go"].
Proof.
  apply (match_skills_resume_spelling
           ["AWS"; "sql"; "  aws "] [" Sql"; "aws"] ["Aws"; "SQL"; "Go"]).
  intros x. vm_compute normalize_skill. rewrite !fmap_cons, !fmap_nil.
  vm_compute normalize_skill. set_solver.
Defined.

Lemma size_matched_missing (rs js : list string) :
  size (matchedSet rs js) + size (missingSet rs js) = size (requiredSet js).
Proof.
  unfold matchedSet, missingSet. rewrite <-size_union by set_solver.
  f_equal. apply set_eq. intros x.
  rewrite elem_of_union, elem_of_intersection, elem_of_difference.
  destruct (decide (x ∈ resumeSet rs)); naive_solver.
Qed.

Lemma filter_split_perm {A : Type} (P Q R : A → Prop)
    `{!∀ x, Decision (P x), !∀ x, Decision (Q x), !∀ x, Decision (R x)}
    (l : list A) :
  (∀ x, x ∈ l → (R x ↔ P x ∨ Q x)) → (∀ x, x ∈ l → P x → Q x → False) →
  filter P l ++ filter Q l ≡ₚ filter R l.
Proof.
  induction l as [|a l IH]; intros Hor Hex; [done|].
  assert (IH' : filter P l ++ filter Q l ≡ₚ filter R l).
  { apply IH; intros x Hx; [apply Hor|apply Hex]; by right. }
  assert (Ha : a ∈ a :: l) by left.
  specialize (Hor a Ha). specialize (Hex a Ha).
  rewrite !filter_cons.
  destruct (decide (P a)), (decide (Q a)), (decide (R a)); try tauto.
  - simpl. by rewrite IH'.
  - rewrite <-Permutation_middle. by rewrite IH'.
Qed.

Lemma size_list_to_set_le (l : list string) :
  size (list_to_set l : gset string) ≤ length l.
Proof.
  induction l as [|x l IH].
  - done.
  - cbn [list_to_set length]. rewrite size_union_alt, size_singleton.
    assert (size (list_to_set l ∖ {[x]} : gset string) ≤ size (list_to_set l : gset string)).
    { apply subseteq_size. intros y [Hy _]%elem_of_difference. exact Hy. }
    lia.
Qed.

(** X2: the matched and the missing skills split the requirement: the two
    lists together are the required entries whose normal form is not the
    sentinel, each with its multiplicity, and no entry is in both; the count
    of matched plus the number of missing normal forms is the total, so that
    the matched count is never above it. *)
Theorem match_skills_partition (rs js : list string) :
  ∃ r, match_skills rs js = Ok r
     ∧ matched_skills r ++ missing_skills r ≡ₚ
         filter (λ s, normalize_skill s ≠ "null") js
     ∧ (∀ s, ¬ (s ∈ matched_skills r ∧ s ∈ missing_skills r))
     ∧ matched_count r + size (missingSet rs js) = total_skills_count r
     ∧ matched_count r ≤ total_skills_count r
     ∧ total_skills_count r ≤ length js.
Proof.
  eexists. split; [apply match_skills_result|]. simpl.
  split; [|split; [|split; [|split]]].
  - unfold sorted. rewrite !merge_sort_Permutation. apply filter_split_perm.
    + intros s Hs. rewrite elem_of_matchedSet, elem_of_missingSet.
      assert (normalize_skill s ∈ normalize_skill <$> js)
        by (apply list_elem_of_fmap; eauto).
      destruct (decide (normalize_skill s ∈ normalize_skill <$> rs)); naive_solver.
    + intros s _. rewrite elem_of_matchedSet, elem_of_missingSet. naive_solver.
  - intros s.
    rewrite !elem_of_sorted, !list_elem_of_filter, elem_of_matchedSet,
      elem_of_missingSet.
    naive_solver.
  - apply size_matched_missing.
  - pose proof (size_matched_missing rs js). lia.
  - unfold requiredSet, skillSet.
    etrans; [apply subseteq_size|].
    { intros x [_ Hx]%elem_of_filter. exact Hx. }
    etrans; [apply size_list_to_set_le|]. by rewrite length_fmap.
Qed.

(** ** The recommendation fetcher *)

Section FetcherBudget.

Variable randbelow : list Request → nat → nat.
Variable requests_get : list Request → Request → result Response.
Variable soup_select : string → string → result (list Tag).
Variable uddg : string → result string.

Notation ddg := (ddg_body randbelow requests_get soup_select uddg).
Notation coursera := (coursera_body randbelow requests_get soup_select).
Notation step := (fetch_skill randbelow requests_get soup_select uddg).
Notation fetch := (fetch_courses_for_skills randbelow requests_get soup_select uddg).
Notation primary := (after_primary randbelow requests_get soup_select uddg).
Notation fallback := (after_fallback randbelow requests_get soup_select).
Notation agent st :=
  (nth (randbelow (requests st) (length USER_AGENTS) `mod` length USER_AGENTS)
     USER_AGENTS EmptyString).

(** A request for the skill [k]: to one of the two providers, with one of the
    two user agents. *)
Notation request_for k r :=
  ((url r = ddg_url k ∨ url r = coursera_url k) ∧ user_agent r ∈ USER_AGENTS).

Lemma agent_in (history : list Request) :
  nth (randbelow history (length USER_AGENTS) `mod` length USER_AGENTS)
    USER_AGENTS EmptyString ∈ USER_AGENTS.
Proof.
  pose proof (Nat.mod_upper_bound (randbelow history (length USER_AGENTS))
                (length USER_AGENTS)) as Hlt.
  destruct (randbelow history (length USER_AGENTS) `mod` length USER_AGENTS)
    as [|[|n]] eqn:Hn.
  - left.
  - right. left.
  - simpl in Hlt. lia.
Qed.

(** One iteration sends one request or two, all for its skill. *)
Lemma fetch_skill_sends (k : string) (st : State) :
  ∃ reqs, requests (exec (step k) st) = requests st ++ reqs
        ∧ 1 ≤ length reqs ≤ 2
        ∧ Forall (λ r, request_for k r) reqs.
Proof.
  unfold exec. rewrite fetch_skill_run. cbv zeta. cbn [snd requests].
  destruct (primary_run randbelow requests_get soup_select uddg k st)
    as (Hr1 & _ & _).
  case_decide.
  - destruct (fallback_run randbelow requests_get soup_select k (primary k st))
      as (f & (Hr2 & _) & _).
    eexists [_; _]. rewrite Hr2, Hr1, <-app_assoc. split; [done|].
    split; [simpl; lia|].
    apply Forall_cons. split; [split; [by left|apply agent_in]|].
    apply Forall_cons. split; [split; [by right|apply agent_in]|].
    apply Forall_nil_2.
  - eexists [_]. rewrite Hr1. split; [done|]. split; [simpl; lia|].
    apply Forall_cons. split; [split; [by left|apply agent_in]|].
    apply Forall_nil_2.
Qed.

Lemma fetch_loop_sends (l : list string) (st : State) :
  ∃ reqs, requests (exec (for_each l step) st) = requests st ++ reqs
        ∧ length l ≤ length reqs ≤ 2 * length l
        ∧ Forall (λ r, ∃ k, k ∈ l ∧ request_for k r) reqs.
Proof.
  revert st. induction l as [|k l IH]; intros st.
  - exists []. unfold exec. simpl. rewrite app_nil_r. split; [done|].
    split; [lia|constructor].
  - destruct (fetch_skill_sends k st) as (r1 & Hr1 & Hlen1 & Hall1).
    destruct (IH (exec (step k) st)) as (r2 & Hr2 & Hlen2 & Hall2).
    exists (r1 ++ r2). unfold exec in *.
    rewrite (for_each_cons_ok _ _ _ _
               (fetch_skill_ok randbelow requests_get soup_select uddg k st)).
    unfold exec. rewrite Hr2, Hr1, <-app_assoc. split; [done|].
    rewrite length_app. split; [simpl; lia|].
    apply Forall_app. split.
    + eapply Forall_impl; [exact Hall1|]. intros r Hr. exists k. split; [left|done].
    + eapply Forall_impl; [exact Hall2|]. intros r (k' & Hk' & Hr).
      exists k'. split; [by right|done].
Qed.

(** The requests of one iteration for the skill [k]: the search address, and
    after it or not the catalog address, each with a user agent of
    [USER_AGENTS]. *)
Notation requests_of k g :=
  ((url <$> g = [ddg_url k] ∨ url <$> g = [ddg_url k; coursera_url k])
   ∧ Forall (λ r, user_agent r ∈ USER_AGENTS) g).

Lemma fetch_skill_group (k : string) (st : State) :
  ∃ g, requests (exec (step k) st) = requests st ++ g ∧ requests_of k g.
Proof.
  unfold exec. rewrite fetch_skill_run. cbv zeta. cbn [snd requests].
  destruct (primary_run randbelow requests_get soup_select uddg k st)
    as (Hr1 & _ & _).
  case_decide.
  - destruct (fallback_run randbelow requests_get soup_select k (primary k st))
      as (f & (Hr2 & _) & _).
    eexists [_; _]. rewrite Hr2, Hr1, <-app_assoc. split; [done|].
    split; [by right|].
    apply Forall_cons. split; [apply agent_in|].
    apply Forall_cons. split; [apply agent_in|]. apply Forall_nil_2.
  - eexists [_]. rewrite Hr1. split; [done|]. split; [by left|].
    apply Forall_cons. split; [apply agent_in|]. apply Forall_nil_2.
Qed.

Lemma fetch_loop_groups (l : list string) (st : State) :
  ∃ groups, requests (exec (for_each l step) st) = requests st ++ concat groups
          ∧ Forall2 (λ k g, requests_of k g) l groups.
Proof.
  revert st. induction l as [|k l IH]; intros st.
  - exists []. unfold exec. simpl. rewrite app_nil_r. split; [done|constructor].
  - destruct (fetch_skill_group k st) as (g & Hg & Hof).
    destruct (IH (exec (step k) st)) as (groups & Hgroups & Hall).
    exists (g :: groups). unfold exec in *.
    rewrite (for_each_cons_ok _ _ _ _
               (fetch_skill_ok randbelow requests_get soup_select uddg k st)).
    unfold exec. rewrite Hgroups, Hg, <-app_assoc. split; [done|].
    by constructor.
Qed.

Lemma groups_length (l : list string) (groups : list (list Request)) :
  Forall2 (λ k g, requests_of k g) l groups →
  length l ≤ length (concat groups) ≤ 2 * length l.
Proof.
  induction 1 as [|k g l groups [Hurl _] _ IH]; [simpl; lia|].
  cbn [concat length]. rewrite length_app.
  assert (1 ≤ length g ≤ 2).
  { rewrite <-(length_fmap url g). destruct Hurl as [-> | ->]; simpl; lia. }
  lia.
Qed.

(** X3: the requests that [fetch_courses_for_skills] sends are, skill after
    skill for the skills that it processes (the first three), one request to
    the search address of the skill, followed or not by one request to its
    catalog address, and nothing else: one or two requests for each processed
    skill, never more than six in all, each with one of the two user agents
    of [USER_AGENTS]. *)
Theorem fetch_request_budget (skills : list string) (st : State) :
  ∃ groups,
    requests (exec (fetch skills) st) = requests st ++ concat groups
    ∧ Forall2 (λ k g,
         (url <$> g = [ddg_url k] ∨ url <$> g = [ddg_url k; coursera_url k])
         ∧ 1 ≤ length g ≤ 2
         ∧ Forall (λ r, user_agent r ∈ USER_AGENTS) g)
        (take 3 skills) groups
    ∧ length groups = 3 `min` length skills
    ∧ 3 `min` length skills ≤ length (concat groups)
    ∧ length (concat groups) ≤ 2 * (3 `min` length skills)
    ∧ length (concat groups) ≤ 6
    ∧ Forall (λ r, ∃ k, k ∈ take 3 skills
                      ∧ (url r = ddg_url k ∨ url r = coursera_url k)
                      ∧ user_agent r ∈ USER_AGENTS) (concat groups).
Proof.
  unfold exec. rewrite fetch_run. cbv zeta. cbn [snd].
  destruct (fetch_loop_groups (take 3 skills)
              {| requests := requests st; skill_recs := skill_recs st;
                 recommendations := [] |}) as (groups & Hr & Hall).
  destruct (fetch_loop_sends (take 3 skills)
              {| requests := requests st; skill_recs := skill_recs st;
                 recommendations := [] |}) as (reqs & Hr' & _ & Hfor).
  pose proof (groups_length _ _ Hall) as Hlen.
  pose proof (Forall2_length _ _ _ Hall) as Hn.
  rewrite length_take in Hlen, Hn. cbn [requests] in Hr, Hr'.
  unfold exec in *. rewrite Hr in Hr'. apply app_inv_head in Hr'. subst reqs.
  exists groups. split; [done|]. split.
  { eapply Forall2_impl; [exact Hall|]. intros k g [Hurl Hag].
    split; [done|]. split; [|done].
    rewrite <-(length_fmap url g). destruct Hurl as [-> | ->]; simpl; lia. }
  split; [done|]. repeat split; [lia..|done].
Qed.

(** A recommendation whose link starts with [http]. *)
Notation absolute c := (Str.startswith (link c) "http" = true).

Lemma ddg_tag_absolute (tag : Tag) (st : State) :
  Forall (λ c, absolute c) (skill_recs st) →
  Forall (λ c, absolute c) (skill_recs (ddg_tag uddg tag st).2).
Proof.
  intros Hst. unfold ddg_tag, lift, skill_recs_append, modify.
  unfold mbind, M_bind, mret, M_ret.
  destruct (Str.contains (href tag) "uddg=").
  - destruct (uddg (href tag)) as [l|e]; cbn [snd]; [|done].
    destruct (Str.startswith l "http") eqn:Hl; cbn [snd skill_recs]; [|done].
    apply Forall_app. split; [done|]. by apply Forall_singleton.
  - destruct (Str.startswith (href tag) "http") eqn:Hl; cbn [snd skill_recs]; [|done].
    apply Forall_app. split; [done|]. by apply Forall_singleton.
Qed.

Lemma ddg_loop_absolute (tags : list Tag) (st : State) :
  Forall (λ c, absolute c) (skill_recs st) →
  Forall (λ c, absolute c) (skill_recs (for_each tags (ddg_tag uddg) st).2).
Proof.
  revert st. induction tags as [|tag tags IH]; intros st Hst; [done|].
  cbn [for_each]. unfold mbind, M_bind.
  pose proof (ddg_tag_absolute tag st Hst) as Htag.
  destruct (ddg_tag uddg tag st) as [[[]|e] st1]; cbn [snd] in *; [|done].
  by apply IH.
Qed.

Lemma coursera_loop_absolute (tags : list Tag) (st : State) :
  Forall (λ c, absolute c) (skill_recs st) →
  Forall (λ c, absolute c) (skill_recs (for_each tags coursera_tag st).2).
Proof.
  revert st. induction tags as [|tag tags IH]; intros st Hst; [done|].
  cbn [for_each]. unfold mbind, M_bind. rewrite coursera_tag_run.
  apply IH. cbn [skill_recs]. apply Forall_app. split; [done|].
  by apply Forall_singleton.
Qed.

Lemma ddg_body_absolute (skill : string) (st : State) :
  Forall (λ c, absolute c) (skill_recs st) →
  Forall (λ c, absolute c) (skill_recs (ddg skill st).2).
Proof.
  intros Hst. rewrite ddg_body_eq.
  destruct (usable _) as [r|]; [|done].
  destruct (soup_select _ _) as [tags|e]; [|done].
  by apply ddg_loop_absolute.
Qed.

Lemma coursera_body_absolute (skill : string) (st : State) :
  Forall (λ c, absolute c) (skill_recs st) →
  Forall (λ c, absolute c) (skill_recs (coursera skill st).2).
Proof.
  intros Hst. rewrite coursera_body_eq.
  destruct (usable _) as [r|]; [|done].
  destruct (soup_select _ _) as [tags|e]; [|done].
  by apply coursera_loop_absolute.
Qed.

Lemma fetch_skill_absolute (skill : string) (st : State) :
  Forall (λ c, absolute c) (skill_recs (exec (step skill) st)).
Proof.
  unfold exec. rewrite fetch_skill_run. cbv zeta. cbn [snd skill_recs].
  assert (Hp : Forall (λ c, absolute c) (skill_recs (primary skill st))).
  { unfold after_primary, exec. rewrite try_pass_run. cbn [snd].
    apply ddg_body_absolute. unfold set_skill_recs, modify. cbn [snd skill_recs].
    constructor. }
  case_decide; [|done].
  unfold after_fallback, exec. rewrite try_pass_run. cbn [snd].
  by apply coursera_body_absolute.
Qed.

(** X4: every recommendation of the mapping that [fetch_courses_for_skills]
    returns has a link that starts with [http]: a result of the search
    engine is kept only with such a link, and a result of the catalog is
    prefixed with the address of the catalog. *)
Theorem fetch_links_absolute (skills : list string) (st : State)
    (recs : list (string * list Course)) (k : string) (v : list Course)
    (c : Course) :
  outcome (fetch skills) st = Ok recs →
  dict_get recs k = Some v → c ∈ v →
  Str.startswith (link c) "http" = true.
Proof.
  unfold outcome. rewrite fetch_run. cbv zeta. cbn [fst]. intros [= <-] Hget Hc.
  destruct (fetch_loop_run randbelow requests_get soup_select uddg (take 3 skills)
              {| requests := requests st; skill_recs := skill_recs st;
                 recommendations := [] |}) as (_ & _ & _ & Hvals).
  destruct (Hvals k v Hget) as [[_ Hnone]|[_ (st_k & _ & ->)]]; [done|].
  pose proof (fetch_skill_absolute k st_k) as Hall.
  rewrite Forall_forall in Hall. by apply Hall.
Qed.

End FetcherBudget.

Lemma fetch_links_absolute_witness :
  let soup_select := λ html css, if decide (css = "a.result__a") then Ok []
                                 else Example.soup_select_ok html css in
  let course := {| title := "Programming with Go";
                   link := "https://www.coursera.org/learn/golang" |} in
  outcome (fetch_courses_for_skills Example.randbelow Example.requests_get_ok
             soup_select Example.uddg ["Go"]) initial
    = Ok [("Go", [course])]
  ∧ dict_get [("Go", [course])] "Go" = Some [course]
  ∧ course ∈ [course]
  ∧ Str.startswith (link course) "http" = true.
Proof.
  cbv zeta.
  assert (H1 : outcome (fetch_courses_for_skills Example.randbelow
                          Example.requests_get_ok
                          (λ html css, if decide (css = "a.result__a") then Ok []
                                       else Example.soup_select_ok html css)
                          Example.uddg ["Go"]) initial
               = Ok [("Go", [{| title := "Programming with Go";
                                link := "https://www.coursera.org/learn/golang" |}])])
    by (vm_compute; reflexivity).
  assert (H2 : dict_get [("Go", [{| title := "Programming with Go";
                                    link := "https://www.coursera.org/learn/golang" |}])]
                 "Go"
               = Some [{| title := "Programming with Go";
                          link := "https://www.coursera.org/learn/golang" |}])
    by (vm_compute; reflexivity).
  assert (H3 : {| title := "Programming with Go";
                  link := "https://www.coursera.org/learn/golang" |}
               ∈ [{| title := "Programming with Go";
                     link := "https://www.coursera.org/learn/golang" |}])
    by left.
  split; [exact H1|]. split; [exact H2|]. split; [exact H3|].
  exact (fetch_links_absolute _ _ _ _ _ _ _ _ _ _ H1 H2 H3).
Defined.

(** ** The caller *)

Section PipelineFacts.

Variable randbelow : list Request → nat → nat.
Variable requests_get : list Request → Request → result Response.
Variable soup_select : string → string → result (list Tag).
Variable uddg : string → result string.

Notation fetch := (fetch_courses_for_skills randbelow requests_get soup_select uddg).
Notation analyze := (analyze_skills randbelow requests_get soup_select uddg).

Lemma analyze_skills_run (rs js : list string) (st : State) :
  ∃ r, match_skills rs js = Ok r
     ∧ analyze rs js st =
         match missing_skills r with
         | [] => (Ok (r, []), st)
         | _ :: _ =>
             (Ok (r, recommendations (exec (fetch (missing_skills r)) st)),
              exec (fetch (missing_skills r)) st)
         end.
Proof.
  eexists. split; [apply match_skills_result|].
  unfold analyze_skills, lift. unfold mbind at 1, M_bind at 1.
  rewrite match_skills_result.
  match goal with |- context [missing_skills ?r] => set (res := r) end.
  destruct (missing_skills res) as [|m ms] eqn:Hm; [done|].
  unfold mbind, M_bind, exec. rewrite fetch_run. done.
Qed.

(** X5: steps 4 and 5 of [analyze] never fail on two lists of strings. When
    no skill is missing, no request is sent and the recommendations are
    empty; otherwise at least one request is sent. The keys of the
    recommendations are the first three missing skills in their sorted order
    (a repeated spelling once): each is an entry of the requirement whose
    normal form is neither the sentinel nor a normal form of the resume. *)
Theorem analyze_skills_recommends_missing (rs js : list string) (st : State) :
  ∃ r recs,
    outcome (analyze rs js) st = Ok (r, recs)
    ∧ match_skills rs js = Ok r
    ∧ dict_keys recs = keys_after [] (take 3 (missing_skills r))
    ∧ (∀ k, k ∈ dict_keys recs →
            k ∈ js ∧ normalize_skill k ≠ "null"
            ∧ (normalize_skill k ∉ normalize_skill <$> rs))
    ∧ (if decide (missing_skills r = [])
       then recs = [] ∧ requests (exec (analyze rs js) st) = requests st
       else ∃ reqs, requests (exec (analyze rs js) st) = requests st ++ reqs
                  ∧ 1 ≤ length reqs ≤ 6).
Proof.
  destruct (analyze_skills_run rs js st) as (r & Hr & Hrun).
  assert (Hmiss : ∀ k, k ∈ missing_skills r →
            k ∈ js ∧ normalize_skill k ≠ "null"
            ∧ (normalize_skill k ∉ normalize_skill <$> rs)).
  { rewrite match_skills_result in Hr. injection Hr as <-. simpl. intros k.
    rewrite elem_of_sorted, list_elem_of_filter, elem_of_missingSet.
    naive_solver. }
  unfold outcome, exec. rewrite Hrun.
  destruct (missing_skills r) as [|m ms] eqn:Hm.
  - exists r, []. cbn [fst snd]. rewrite Hm. rewrite decide_True by done.
    split; [done|]. split; [done|]. split; [done|]. split; [|done].
    intros k Hk. by apply elem_of_nil in Hk.
  - exists r. eexists. cbn [fst snd]. rewrite Hm. split; [done|]. split; [done|].
    destruct (fetch_loop_run randbelow requests_get soup_select uddg
                (take 3 (m :: ms))
                {| requests := requests st; skill_recs := skill_recs st;
                   recommendations := [] |}) as (_ & _ & Hkeys & _).
    destruct (fetch_loop_sends randbelow requests_get soup_select uddg
                (take 3 (m :: ms))
                {| requests := requests st; skill_recs := skill_recs st;
                   recommendations := [] |}) as (reqs & Hreqs & Hlen & _).
    unfold exec in *. rewrite fetch_run. cbv zeta. cbn [snd]. unfold exec.
    cbn [recommendations requests dict_keys fmap list_fmap] in Hkeys, Hreqs.
    split; [exact Hkeys|]. split.
    + intros k. rewrite Hkeys, elem_of_keys_after, elem_of_nil.
      intros [[]|Hk%elem_of_take]. destruct Hk as (i & Hk & _).
      apply Hmiss. by eapply list_elem_of_lookup_2.
    + rewrite decide_False by done. exists reqs. split; [exact Hreqs|].
      rewrite length_take in Hlen. cbn [length] in Hlen. lia.
Qed.

End PipelineFacts.

(** ** The answers of the extraction service *)

Lemma json_get_setitem (d : list (string * json)) (k k' : string) (v : json) :
  json_get (dict_setitem d k v) k' =
    if decide (k = k') then v else json_get d k'.
Proof. unfold json_get. rewrite dict_get_setitem. by case_decide. Qed.

Lemma dict_setitem_same {V : Type} (d : list (string * V)) (k : string) (v : V) :
  dict_get d k = Some v → dict_setitem d k v = d.
Proof.
  induction d as [|[k0 v0] d IH]; [done|]. simpl.
  destruct (decide (k0 = k)) as [->|Hne].
  - by intros [= ->].
  - intros Hget. by rewrite IH.
Qed.

Lemma coerced_list_is_list (default : list json) (v : json) :
  is_list (coerced_list default v) = true.
Proof. unfold coerced_list. by destruct (is_list v) eqn:Hv. Qed.

Lemma coerced_list_idemp (default : list json) (v : json) :
  coerced_list default (coerced_list default v) = coerced_list default v.
Proof.
  unfold coerced_list at 1. by rewrite coerced_list_is_list.
Qed.

(** A list has a key: [data.get] gives [None] for an absent one. *)
Lemma is_list_get (d : list (string * json)) (k : string) :
  is_list (json_get d k) = true → dict_get d k = Some (json_get d k).
Proof. unfold json_get. by destruct (dict_get d k). Qed.

Lemma coerce_list_field_get (default : list json) (d : list (string * json))
    (f k : string) :
  dict_get (coerce_list_field default d f) k =
    if decide (f = k) then Some (coerced_list default (json_get d k))
    else dict_get d k.
Proof.
  unfold coerce_list_field, coerced_list.
  destruct (decide (f = k)) as [->|Hne].
  - destruct (is_list (json_get d k)) eqn:Hl.
    + by apply is_list_get.
    + rewrite dict_get_setitem. by rewrite decide_True.
  - destruct (is_list (json_get d f)); [done|].
    rewrite dict_get_setitem. by rewrite decide_False.
Qed.

Lemma coerce_list_fields_get (default : list json) (fs : list string)
    (d : list (string * json)) (k : string) :
  dict_get (foldl (coerce_list_field default) d fs) k =
    if decide (k ∈ fs) then Some (coerced_list default (json_get d k))
    else dict_get d k.
Proof.
  revert d. induction fs as [|f fs IH]; intros d.
  - cbn [foldl]. rewrite decide_False; [done|]. apply not_elem_of_nil.
  - cbn [foldl]. rewrite IH. unfold json_get at 1.
    rewrite coerce_list_field_get.
    destruct (decide (f = k)) as [->|Hne].
    + rewrite (decide_True (P := k ∈ k :: fs)) by left.
      case_decide; [|done]. simpl. by rewrite coerced_list_idemp.
    + destruct (decide (k ∈ fs)) as [Hin|Hnin].
      * rewrite decide_True by (by right). done.
      * rewrite decide_False; [done|]. rewrite elem_of_cons. naive_solver.
Qed.

Lemma coerce_bool_fields_get (fs : list string) (d : list (string * json))
    (k : string) :
  dict_get (foldl coerce_bool_field d fs) k =
    if decide (k ∈ fs) then Some (JBool (_to_bool (json_get d k)))
    else dict_get d k.
Proof.
  revert d. induction fs as [|f fs IH]; intros d.
  - cbn [foldl]. rewrite decide_False; [done|]. apply not_elem_of_nil.
  - cbn [foldl]. rewrite IH. unfold coerce_bool_field.
    rewrite json_get_setitem, dict_get_setitem.
    destruct (decide (f = k)) as [->|Hne].
    + rewrite (decide_True (P := k ∈ k :: fs)) by left. by case_decide.
    + destruct (decide (k ∈ fs)) as [Hin|Hnin].
      * rewrite decide_True by (by right). done.
      * rewrite decide_False; [done|]. rewrite elem_of_cons. naive_solver.
Qed.

(** The record that [parse_resume] builds from the object [d]. *)
Notation resume_record file_format d :=
  (dict_setitem
     (foldl coerce_bool_field
        (foldl (coerce_list_field []) d resume_list_fields) resume_bool_fields)
     "file_format" (JStr file_format)).

Lemma resume_record_get (file_format : string) (d : list (string * json))
    (k : string) :
  dict_get (resume_record file_format d) k =
    if decide (k = "file_format") then Some (JStr file_format)
    else if decide (k ∈ resume_bool_fields)
         then Some (JBool (_to_bool (json_get d k)))
    else if decide (k ∈ resume_list_fields)
         then Some (coerced_list [] (json_get d k))
    else dict_get d k.
Proof.
  rewrite dict_get_setitem.
  destruct (decide (k = "file_format")) as [->|Hff].
  { by rewrite decide_True. }
  rewrite decide_False by done. rewrite coerce_bool_fields_get.
  destruct (decide (k ∈ resume_bool_fields)) as [Hb|Hb].
  - unfold json_get at 1. rewrite coerce_list_fields_get.
    rewrite decide_False; [done|].
    intros Hl. revert Hb. unfold resume_bool_fields, resume_list_fields in *.
    set_solver.
  - by rewrite coerce_list_fields_get.
Qed.

Lemma resume_record_lists (file_format : string) (d : list (string * json)) :
  Forall (λ k, is_list (json_get (resume_record file_format d) k) = true)
    resume_list_fields.
Proof.
  apply Forall_forall. intros k Hk. unfold json_get. rewrite resume_record_get.
  rewrite decide_False by (intros ->; revert Hk; unfold resume_list_fields; set_solver).
  rewrite decide_False
    by (revert Hk; unfold resume_list_fields, resume_bool_fields; set_solver).
  rewrite decide_True by done. apply coerced_list_is_list.
Qed.

Lemma resume_record_bools (file_format : string) (d : list (string * json)) :
  Forall (λ k, is_bool (json_get (resume_record file_format d) k) = true)
    resume_bool_fields.
Proof.
  apply Forall_forall. intros k Hk. unfold json_get. rewrite resume_record_get.
  rewrite decide_False by (intros ->; revert Hk; unfold resume_bool_fields; set_solver).
  by rewrite decide_True.
Qed.

(** X6: on a JSON object [parse_resume] always succeeds once the answer is
    decoded, and gives back a typed record: the three list fields are lists
    (a list as it was; another value that is true alone in a list; a false
    or absent one as the empty list), the three flags are booleans,
    [file_format] is the extension of the file, and every other key has the
    value that it had. A decoded answer that is not an object is an error. *)
Theorem parse_resume_response_typed (file_format : string)
    (d : list (string * json)) :
  ∃ d', parse_resume_response file_format (JDict d) = Some (JDict d')
      ∧ (∀ k, dict_get d' k =
               if decide (k = "file_format") then Some (JStr file_format)
               else if decide (k ∈ resume_bool_fields)
                    then Some (JBool (_to_bool (json_get d k)))
               else if decide (k ∈ resume_list_fields)
                    then Some (coerced_list [] (json_get d k))
               else dict_get d k)
      ∧ Forall (λ k, is_list (json_get d' k) = true) resume_list_fields
      ∧ Forall (λ k, is_bool (json_get d' k) = true) resume_bool_fields
      ∧ (∀ v, match v with
              | JDict _ => True
              | _ => parse_resume_response file_format v = None
              end).
Proof.
  eexists. split; [reflexivity|].
  split; [apply resume_record_get|].
  split; [apply resume_record_lists|]. split; [apply resume_record_bools|].
  by intros [].
Qed.

Lemma coerce_list_fields_id (default : list json) (fs : list string)
    (d : list (string * json)) :
  Forall (λ k, is_list (json_get d k) = true) fs →
  foldl (coerce_list_field default) d fs = d.
Proof.
  induction 1 as [|f fs Hf _ IH]; [done|].
  cbn [foldl]. unfold coerce_list_field at 2. by rewrite Hf.
Qed.

Lemma coerce_bool_fields_id (fs : list string) (d : list (string * json)) :
  Forall (λ k, is_bool (json_get d k) = true) fs →
  foldl coerce_bool_field d fs = d.
Proof.
  induction 1 as [|f fs Hf _ IH]; [done|].
  cbn [foldl]. unfold coerce_bool_field at 2.
  rewrite dict_setitem_same; [done|].
  unfold json_get in *. destruct (dict_get d f) as [[]|]; done.
Qed.

(** X7: the typed record is a fixed point of the coercion of [parse_resume]:
    coercing the record that it returned gives the same record, key by key
    and in the same order. *)
Theorem parse_resume_response_idempotent (file_format : string) (data : json) :
  parse_resume_response file_format data ≫= parse_resume_response file_format
  = parse_resume_response file_format data.
Proof.
  destruct data as [| | | | | |d]; try done.
  cbn [parse_resume_response mbind option_bind].
  rewrite (coerce_list_fields_id [] resume_list_fields
             (resume_record file_format d))
    by apply resume_record_lists.
  rewrite (coerce_bool_fields_id resume_bool_fields (resume_record file_format d))
    by apply resume_record_bools.
  f_equal. f_equal. apply dict_setitem_same.
  rewrite resume_record_get. by rewrite decide_True.
Qed.

(** X8: on a JSON object [parse_jd] gives back the object with its three list
    fields as lists: a list as it was, even the empty one; another value that
    is true alone in a list; a false or absent one as [["Null"]]; every other
    key keeps its value. Of an answer that is a list the first item is read
    and the others are ignored, and the empty list is an error. *)
Theorem parse_jd_response_typed (d : list (string * json)) :
  ∃ d', parse_jd_response (JDict d) = Some (JDict d')
      ∧ (∀ k, dict_get d' k =
               if decide (k ∈ jd_list_fields)
               then Some (coerced_list [JStr "Null"] (json_get d k))
               else dict_get d k)
      ∧ Forall (λ k, is_list (json_get d' k) = true) jd_list_fields
      ∧ Forall (λ k, if is_list (json_get d k)
                     then json_get d' k = json_get d k
                     else if truthy (json_get d k)
                          then json_get d' k = JList [json_get d k]
                          else json_get d' k = JList [JStr "Null"])
          jd_list_fields
      ∧ (∀ rest, parse_jd_response (JList (JDict d :: rest))
                 = parse_jd_response (JDict d))
      ∧ parse_jd_response (JList []) = None.
Proof.
  eexists. split; [reflexivity|].
  assert (Hget : ∀ k, k ∈ jd_list_fields →
    json_get (foldl (coerce_list_field [JStr "Null"]) d jd_list_fields) k
    = coerced_list [JStr "Null"] (json_get d k)).
  { intros k Hk. unfold json_get at 1. rewrite coerce_list_fields_get.
    by rewrite decide_True. }
  split; [intros k; apply coerce_list_fields_get|].
  split; [|split; [|done]].
  - apply Forall_forall. intros k Hk. rewrite (Hget k Hk).
    apply coerced_list_is_list.
  - apply Forall_forall. intros k Hk. rewrite (Hget k Hk). unfold coerced_list.
    destruct (is_list (json_get d k)); [done|].
    by destruct (truthy (json_get d k)).
Qed.

Section ExtractionFacts.

Variable randbelow : list Request → nat → nat.
Variable requests_get : list Request → Request → result Response.
Variable soup_select : string → string → result (list Tag).
Variable uddg : string → result string.

Notation analyze := (analyze_skills randbelow requests_get soup_select uddg).

(** X9: when the answer for a job description has no list of required
    skills, the key absent or with a value that is false, [parse_jd] puts
    [["Null"]] in its place, and the analysis of any resume against it counts
    no required skill, scores the [int] [0], lists nothing as matched or
    missing, and asks no provider. *)
Theorem jd_without_skills_scores_zero (d : list (string * json))
    (rs : list string) (st : State) :
  is_list (json_get d "skills_required") = false →
  truthy (json_get d "skills_required") = false →
  ∃ d',
    parse_jd_response (JDict d) = Some (JDict d')
    ∧ json_get d' "skills_required" = JList [JStr "Null"]
    ∧ skill_strings [JStr "Null"] = Some ["Null"]
    ∧ analyze rs ["Null"] st =
        (Ok ({| score_percentage := PyInt 0;
                matched_skills := [];
                missing_skills := [];
                total_skills_count := 0;
                matched_count := 0 |}, []), st).
Proof.
  intros Hl Ht. eexists.
  split; [reflexivity|]. split.
  { unfold json_get at 1. rewrite coerce_list_fields_get.
    rewrite decide_True by (unfold jd_list_fields; left).
    unfold coerced_list. by rewrite Hl, Ht. }
  split; [done|].
  unfold analyze_skills, lift. unfold mbind at 1, M_bind at 1.
  rewrite match_skills_result.
  rewrite (matchedSet_empty_required rs ["Null"] requiredSet_Null).
  rewrite (missingSet_empty_required rs ["Null"] requiredSet_Null).
  rewrite requiredSet_Null. reflexivity.
Qed.

End ExtractionFacts.

Lemma jd_without_skills_scores_zero_witness :
  let d := [("role", JStr "Backend Developer"); ("skills_required", JStr EmptyString)] in
  is_list (json_get d "skills_required") = false
  ∧ truthy (json_get d "skills_required") = false
  ∧ ∃ d',
      parse_jd_response (JDict d) = Some (JDict d')
      ∧ json_get d' "skills_required" = JList [JStr "Null"]
      ∧ skill_strings [JStr "Null"] = Some ["Null"]
      ∧ analyze_skills Example.randbelow Example.requests_get_ok
          Example.soup_select_ok Example.uddg ["Go"; "SQL"] ["Null"] initial =
          (Ok ({| score_percentage := PyInt 0;
                  matched_skills := [];
                  missing_skills := [];
                  total_skills_count := 0;
                  matched_count := 0 |}, []), initial).
Proof.
  cbv zeta. split; [reflexivity|]. split; [reflexivity|].
  apply (jd_without_skills_scores_zero Example.randbelow Example.requests_get_ok
           Example.soup_select_ok Example.uddg
           [("role", JStr "Backend Developer"); ("skills_required", JStr EmptyString)]
           ["Go"; "SQL"] initial); reflexivity.
Defined.
